(** * A shallow embedding of the Synacor virtual machine (src/vm.c)

    The C program keeps four global objects (binary, stack, memory,
    registers) and one local of [binary_exec] (the program counter).  They
    are gathered here in one record that every function receives and
    returns.  An [unsigned short] is a [Z] in [0, 65535]; each place where C
    converts an [int] to [unsigned short] is written [u16].  The three
    arrays are lists whose length is the declared array size; an access
    outside the array is not a fault of the machine (no [vm_fail] is
    reached) but behaviour that C leaves undefined, and is kept apart from
    faults in the result type.  The host is modelled by the bytes [getchar]
    has still to deliver and the characters [putchar] has written; the
    notes [vm_info] prints on the error stream are left out. *)

From Stdlib Require Import ZArith Lia String.
From Stdlib Require Strings.Byte.
From stdpp Require Import base list.

Open Scope Z_scope.

(** ** Defines (vm.c, lines 24-47) *)

Definition STACK_SIZE : Z := 32768.
Definition ARCH_MODULO : Z := 32768.
Definition REGISTERS_SIZE : Z := 8.
Definition STORAGE_REG_LOW : Z := 32768.
Definition STORAGE_REG_HIGH : Z := 32775.
Definition MEMORY_SIZE : Z := 32767.
Definition VALUE_MAX_LITERAL : Z := 32767.
Definition VALUE_MAX_REGISTER : Z := 32775.

(** Limits of the C types involved: [unsigned short] is 16 bits wide and
    [int] is 32 bits wide on the hosts the program is written for. *)
Definition INT_MAX : Z := 2147483647.
Definition EOF : Z := -1.

(** Conversion of an [int] to [unsigned short]. *)
Definition u16 (z : Z) : Z := z mod 65536.

(** ** Results of running a piece of the program *)

(** Behaviour the C standard leaves undefined and the program does not
    guard against. *)
Inductive undefined : Type :=
| OutOfBounds      (* array subscript outside the declared array *)
| DivisionByZero   (* the second operand of % is zero *)
| SignedOverflow.  (* an int product exceeds INT_MAX *)

(** The calls of [vm_fail]: each prints a diagnostic and ends the process
    with [exit(1)]. *)
Inductive fault : Type :=
| NoBinaryPath                    (* main, line 134 *)
| CannotOpenBinary                (* binary_load, line 184 *)
| FunctionFailed (fn : string)    (* val_get, reg_write, stack_pop, stack_push *)
| UnknownOpcode (opcode pc : Z)   (* operation_exec, line 348 *)
| PcOutOfBounds.                  (* binary_exec, line 229 *)

(** The format string each call hands to [vm_fail]. *)
Definition vm_fail_fmt (f : fault) : string :=
  match f with
  | NoBinaryPath => "Please provide path to binary file ..."
  | CannotOpenBinary => "Cannot open binary file ... [%s]"
  | FunctionFailed fn => "Function " ++ fn ++ "() failed!"
  | UnknownOpcode _ _ => "Function operation_exec() failed! [opcode:%d] [pc:%d]"
  | PcOutOfBounds => "Program counter out of bounds."
  end%string.

Inductive outcome (A : Type) : Type :=
| Ret (x : A)              (* the function returns *)
| Halt                     (* exit(0), opcode 0 *)
| Fail (f : fault)         (* vm_fail: diagnostic and exit(1) *)
| Undef (u : undefined).   (* undefined behaviour *)

Arguments Ret {A} x.
Arguments Halt {A}.
Arguments Fail {A} f.
Arguments Undef {A} u.

Definition bind {A B : Type} (m : outcome A) (k : A -> outcome B) : outcome B :=
  match m with
  | Ret x => k x
  | Halt => Halt
  | Fail f => Fail f
  | Undef u => Undef u
  end.

Notation "x <- m ;; k" := (bind m (fun x => k))
  (at level 100, m at next level, right associativity).

(** ** C arrays *)

Definition array_read (arr : list Z) (i : Z) : outcome Z :=
  if i <? 0 then Undef OutOfBounds
  else match arr !! Z.to_nat i with
       | Some v => Ret v
       | None => Undef OutOfBounds
       end.

Definition array_write (arr : list Z) (i v : Z) : outcome (list Z) :=
  if i <? 0 then Undef OutOfBounds
  else if i <? Z.of_nat (length arr) then Ret (<[Z.to_nat i := v]> arr)
  else Undef OutOfBounds.

(** ** Data types and global variables (vm.c, lines 88-117) *)

Record binary_t : Type := mk_binary { bin_size : Z; bin_length : Z }.

Record stack_t : Type := mk_stack { position : Z; contents : list Z }.

Record vm : Type := mk_vm {
  binary : binary_t;
  stack : stack_t;
  memory : list Z;       (* memory.contents, MEMORY_SIZE slots *)
  registers : list Z;    (* registers.contents, REGISTERS_SIZE slots *)
  pc : Z;                (* the local of binary_exec *)
  stdin : list Byte.byte;  (* what getchar has still to deliver *)
  stdout : list Z        (* what putchar has written *)
}.

Definition with_binary (x : binary_t) (s : vm) : vm :=
  mk_vm x (stack s) (memory s) (registers s) (pc s) (stdin s) (stdout s).
Definition with_stack (x : stack_t) (s : vm) : vm :=
  mk_vm (binary s) x (memory s) (registers s) (pc s) (stdin s) (stdout s).
Definition with_memory (x : list Z) (s : vm) : vm :=
  mk_vm (binary s) (stack s) x (registers s) (pc s) (stdin s) (stdout s).
Definition with_registers (x : list Z) (s : vm) : vm :=
  mk_vm (binary s) (stack s) (memory s) x (pc s) (stdin s) (stdout s).
Definition with_pc (x : Z) (s : vm) : vm :=
  mk_vm (binary s) (stack s) (memory s) (registers s) x (stdin s) (stdout s).
Definition with_stdin (x : list Byte.byte) (s : vm) : vm :=
  mk_vm (binary s) (stack s) (memory s) (registers s) (pc s) x (stdout s).
Definition with_stdout (x : list Z) (s : vm) : vm :=
  mk_vm (binary s) (stack s) (memory s) (registers s) (pc s) (stdin s) x.

(** ** Registers (vm.c, lines 375-404) *)

Definition reg_init : list Z := replicate (Z.to_nat REGISTERS_SIZE) 0.

Definition reg_write (regs : list Z) (address value : Z) : outcome (list Z) :=
  if (address <? STORAGE_REG_LOW) || (address >? STORAGE_REG_HIGH)
  then Fail (FunctionFailed "reg_write")
  else array_write regs (address - STORAGE_REG_LOW) value.

Definition reg_read (regs : list Z) (address : Z) : outcome Z :=
  if address <? STORAGE_REG_LOW then Ret address
  else array_read regs (address - STORAGE_REG_LOW).

(** ** Operand resolution (vm.c, lines 358-369) *)

Definition val_get (regs : list Z) (input : Z) : outcome Z :=
  if input <=? VALUE_MAX_LITERAL then Ret input
  else if input <=? VALUE_MAX_REGISTER then reg_read regs input
  else Fail (FunctionFailed "val_get").

(** ** Memory (vm.c, lines 410-431) *)

Definition mem_init : list Z := replicate (Z.to_nat MEMORY_SIZE) 0.

Definition mem_read (mem : list Z) (address : Z) : outcome Z :=
  array_read mem address.

Definition mem_write (mem : list Z) (address value : Z) : outcome (list Z) :=
  array_write mem address value.

(** ** Stack (vm.c, lines 437-483) *)

(** [stack] is a global, so its contents start zeroed; [stack_init] only
    sets the position. *)
Definition stack_init : stack_t :=
  mk_stack (-1) (replicate (Z.to_nat STACK_SIZE) 0).

Definition stack_is_full (st : stack_t) : bool :=
  position st >=? STACK_SIZE - 1.

Definition stack_is_empty (st : stack_t) : bool :=
  position st <? 0.

Definition stack_pop (st : stack_t) : outcome (Z * stack_t) :=
  if stack_is_empty st then Fail (FunctionFailed "stack_pop")
  else v <- array_read (contents st) (position st) ;;
       Ret (v, mk_stack (position st - 1) (contents st)).

Definition stack_push (st : stack_t) (element : Z) : outcome stack_t :=
  if stack_is_full st then Fail (FunctionFailed "stack_push")
  else c <- array_write (contents st) (position st + 1) element ;;
       Ret (mk_stack (position st + 1) c).

(** The words the stack holds, bottom first: slots [0 .. position]. *)
Definition stack_view (st : stack_t) : list Z :=
  take (Z.to_nat (position st + 1)) (contents st).

(** ** Host input and output *)

Definition byte_val (b : Byte.byte) : Z := Z.of_N (Byte.to_N b).

(** [getchar]: the next character as an [int], or [EOF] once the input is
    used up. *)
Definition getchar (input : list Byte.byte) : Z * list Byte.byte :=
  match input with
  | [] => (EOF, [])
  | ch :: rest => (byte_val ch, rest)
  end.

(** [putchar] writes its argument converted to [unsigned char]. *)
Definition putchar (ch : Z) (out : list Z) : list Z := out ++ [ch mod 256].

(** ** CPU operations (vm.c, lines 239-352) *)

(** The operands of [%], [+] and [*] are promoted to [int].  A sum of two
    16-bit values always fits; a product may not. *)
Definition int_mul (x y : Z) : outcome Z :=
  if x * y >? INT_MAX then Undef SignedOverflow else Ret (x * y).

Definition int_rem (x y : Z) : outcome Z :=
  if y =? 0 then Undef DivisionByZero else Ret (Z.rem x y).

Definition bool_int (b : bool) : Z := if b then 1 else 0.

(** [reg_write(a, value); *pc += width] *)
Definition store (s : vm) (a value width : Z) : outcome vm :=
  r <- reg_write (registers s) a value ;;
  Ret (with_pc (pc s + width) (with_registers r s)).

Definition operation_exec (s : vm) (opcode a b c : Z) : outcome vm :=
  let regs := registers s in
  match opcode with
  | 0 => Halt
  | 1 => v <- reg_read regs b ;; store s a v 3
  | 2 => v <- val_get regs a ;;
         st <- stack_push (stack s) v ;;
         Ret (with_pc (pc s + 2) (with_stack st s))
  | 3 => p <- stack_pop (stack s) ;;
         store (with_stack (snd p) s) a (fst p) 2
  | 4 => x <- val_get regs b ;; y <- val_get regs c ;;
         store s a (bool_int (x =? y)) 4
  | 5 => x <- val_get regs b ;; y <- val_get regs c ;;
         store s a (bool_int (x >? y)) 4
  | 6 => t <- val_get regs a ;; Ret (with_pc t s)
  | 7 => x <- val_get regs a ;;
         if negb (x =? 0) then t <- val_get regs b ;; Ret (with_pc t s)
         else Ret (with_pc (pc s + 3) s)
  | 8 => x <- val_get regs a ;;
         if x =? 0 then t <- val_get regs b ;; Ret (with_pc t s)
         else Ret (with_pc (pc s + 3) s)
  | 9 => x <- val_get regs b ;; y <- val_get regs c ;;
         store s a ((x + y) mod ARCH_MODULO) 4
  | 10 => x <- val_get regs b ;; y <- val_get regs c ;;
          z <- int_mul x y ;;
          store s a (z mod ARCH_MODULO) 4
  | 11 => x <- val_get regs b ;; y <- val_get regs c ;;
          z <- int_rem x y ;;
          store s a z 4
  | 12 => x <- val_get regs b ;; y <- val_get regs c ;;
          store s a (Z.land x y) 4
  | 13 => x <- val_get regs b ;; y <- val_get regs c ;;
          store s a (Z.lor x y) 4
  | 14 => x <- val_get regs b ;;
          store s a (Z.land (Z.lnot x) 32767) 3
  | 15 => x <- val_get regs b ;;
          v <- mem_read (memory s) x ;;
          store s a v 3
  | 16 => x <- val_get regs a ;; y <- val_get regs b ;;
          m <- mem_write (memory s) x y ;;
          Ret (with_pc (pc s + 3) (with_memory m s))
  | 17 => st <- stack_push (stack s) (u16 (pc s + 2)) ;;
          t <- val_get regs a ;;
          Ret (with_pc t (with_stack st s))
  | 18 => p <- stack_pop (stack s) ;;
          Ret (with_pc (fst p) (with_stack (snd p) s))
  | 19 => x <- val_get regs a ;;
          Ret (with_pc (pc s + 2) (with_stdout (putchar x (stdout s)) s))
  | 20 => let g := getchar (stdin s) in
          store (with_stdin (snd g) s) a (u16 (fst g)) 2
  | 21 => Ret (with_pc (pc s + 1) s)
  | _ => Fail (UnknownOpcode opcode (pc s))
  end.

(** ** The execution loop (vm.c, lines 212-233) *)

(** The four words handed to [operation_exec]: [memory.contents[pc]] to
    [memory.contents[pc+3]], read whatever the opcode is. *)
Definition fetch (s : vm) : outcome (Z * Z * Z * Z) :=
  opcode <- array_read (memory s) (pc s) ;;
  a <- array_read (memory s) (pc s + 1) ;;
  b <- array_read (memory s) (pc s + 2) ;;
  c <- array_read (memory s) (pc s + 3) ;;
  Ret (opcode, a, b, c).

(** One turn of the [while (1)] loop: the call of [operation_exec] and the
    check of the program counter that follows it. *)
Definition cycle (s : vm) : outcome vm :=
  w <- fetch s ;;
  let '(opcode, a, b, c) := w in
  s' <- operation_exec s opcode a b c ;;
  if (pc s' <? 0) || (pc s' >? bin_length (binary s'))
  then Fail PcOutOfBounds
  else Ret s'.

(** The loop never ends by itself, so it is run for a number of turns:
    [Ret s] is a machine still running, in state [s], after [fuel] turns. *)
Fixpoint run (fuel : nat) (s : vm) : outcome vm :=
  match fuel with
  | O => Ret s
  | S n => s' <- cycle s ;; run n s'
  end.

Definition binary_exec (fuel : nat) (s : vm) : outcome vm :=
  run fuel (with_pc 0 s).

(** ** Loading (vm.c, lines 161-206) *)

(** [fread] into [memory.contents]: the host is little-endian and an
    [unsigned short] takes two bytes, so bytes [2i] and [2i+1] of the file
    are the low and the high half of slot [i]; a last single byte replaces
    the low half of its slot only. *)
Fixpoint fread (mem : list Z) (bytes : list Byte.byte) : list Z :=
  match bytes, mem with
  | lo :: hi :: rest, _ :: mem' =>
      (byte_val lo + 256 * byte_val hi) :: fread mem' rest
  | [lo], w :: mem' => (byte_val lo + 256 * (w / 256)) :: mem'
  | _, _ => mem
  end.

(** [file] is what [fopen] finds at the path: [None] when it cannot be
    opened.  The read is taken to deliver the whole file, so the test of
    its return value never fires.  A file longer than the array makes
    [fread] write past it. *)
Definition binary_load (file : option (list Byte.byte)) (s : vm) : outcome vm :=
  match file with
  | None => Fail CannotOpenBinary
  | Some bytes =>
      let size := Z.of_nat (length bytes) in
      if size >? 2 * Z.of_nat (length (memory s)) then Undef OutOfBounds
      else Ret (with_binary (mk_binary size (size / 2))
                  (with_memory (fread (memory s) bytes) s))
  end.

(** [binary_init]: the path is [argv[1]], missing when [argc < 2]. *)
Definition binary_init (argv : list string) : outcome string :=
  match argv !! 1%nat with
  | Some path => Ret path
  | None => Fail NoBinaryPath
  end.

(** The machine after [reg_init], [mem_init] and [stack_init]. *)
Definition vm_init (input : list Byte.byte) : vm :=
  mk_vm (mk_binary 0 0) stack_init mem_init reg_init 0 input [].

(** The machine as [binary_exec] finds it. *)
Definition boot (fs : string -> option (list Byte.byte)) (argv : list string)
    (input : list Byte.byte) : outcome vm :=
  path <- binary_init argv ;;
  binary_load (fs path) (vm_init input).

Definition main (fs : string -> option (list Byte.byte)) (argv : list string)
    (input : list Byte.byte) (fuel : nat) : outcome vm :=
  s <- boot fs argv input ;;
  binary_exec fuel s.

(** * Predicates and sample machines used by the statements *)

(** ** Well-formed machines: every array has its declared size *)

Definition wf_registers (regs : list Z) : Prop :=
  Z.of_nat (length regs) = REGISTERS_SIZE.

Definition wf_memory (mem : list Z) : Prop :=
  Z.of_nat (length mem) = MEMORY_SIZE.

Definition wf_stack (st : stack_t) : Prop :=
  Z.of_nat (length (contents st)) = STACK_SIZE /\ -1 <= position st < STACK_SIZE.

(** A bank with distinct contents, to exercise the three ranges. *)
Definition sample_registers : list Z := [10; 11; 12; 13; 14; 15; 16; 17].

(** ** Program images used as concrete inputs

    Each image is the byte content of a binary file, two bytes per word,
    low byte first. *)

(** [set r0, 32776]: words 1, 32768, 32776. *)
Definition set_invalid_image : list Byte.byte :=
  [Byte.x01; Byte.x00; Byte.x00; Byte.x80; Byte.x08; Byte.x80].

(** [wmem 32767, 5]: words 16, 32767, 5. *)
Definition wmem_top_image : list Byte.byte :=
  [Byte.x10; Byte.x00; Byte.xff; Byte.x7f; Byte.x05; Byte.x00].

(** [mod r0, 5, 0]: words 11, 32768, 5, 0. *)
Definition mod_zero_image : list Byte.byte :=
  [Byte.x0b; Byte.x00; Byte.x00; Byte.x80; Byte.x05; Byte.x00; Byte.x00; Byte.x00].

(** A file system that holds one file, whatever the path, and the command
    line that names it. *)
Definition one_file (bytes : list Byte.byte) : string -> option (list Byte.byte) :=
  fun _ => Some bytes.

Definition command_line : list string := ["vm"%string; "image.bin"%string].

(** ** Reachable machines and what holds of them *)

(** The machines a run passes through: the one [binary_exec] starts from,
    and each one a turn of the loop leaves behind. *)
Inductive reachable (file input : list Byte.byte) : vm -> Prop :=
| reach_boot s :
    binary_load (Some file) (vm_init input) = Ret s -> reachable file input s
| reach_cycle s s' :
    reachable file input s -> cycle s = Ret s' -> reachable file input s'.

(** The value range of an [unsigned short], and the range of a 15-bit
    word. *)
Definition word16 (v : Z) : Prop := 0 <= v <= 65535.
Definition word15 (v : Z) : Prop := 0 <= v <= 32767.

Definition stored16 (s : vm) : Prop :=
  Forall word16 (registers s) /\ Forall word16 (memory s)
  /\ Forall word16 (contents (stack s)).

Definition wf_arrays (s : vm) : Prop :=
  wf_registers (registers s) /\ wf_memory (memory s) /\ wf_stack (stack s).

Definition wf (s : vm) : Prop :=
  wf_arrays s /\ 0 <= pc s <= bin_length (binary s)
  /\ bin_length (binary s) <= MEMORY_SIZE.


(** [in r0]: words 20, 32768; run with no input left. *)
Definition in_at_eof_image : list Byte.byte :=
  [Byte.x14; Byte.x00; Byte.x00; Byte.x80].

(** The machine once that image is loaded, and after its first turn. *)
Definition in_eof_loaded : vm :=
  mk_vm (mk_binary 4 2) stack_init (fread mem_init in_at_eof_image) reg_init 0 [] [].

Definition in_eof_after : vm :=
  mk_vm (mk_binary 4 2) stack_init (fread mem_init in_at_eof_image)
    (<[0%nat := 65535]> reg_init) 2 [] [].

(** [call 3; halt; ret]: words 17, 3, 0, 18. *)
Definition call_ret_image : list Byte.byte :=
  [Byte.x11; Byte.x00; Byte.x03; Byte.x00; Byte.x00; Byte.x00; Byte.x12; Byte.x00].

Definition call_ret_loaded : vm :=
  mk_vm (mk_binary 8 4) stack_init (fread mem_init call_ret_image) reg_init 0 [] [].

(** [jmp 100] in a program of two words: words 6, 100. *)
Definition jmp_far_image : list Byte.byte :=
  [Byte.x06; Byte.x00; Byte.x64; Byte.x00].

Definition jmp_far_loaded : vm :=
  mk_vm (mk_binary 4 2) stack_init (fread mem_init jmp_far_image) reg_init 0 [] [].

(** Three bytes: [noop], then a stray zero byte.  Words 21 and 0. *)
Definition odd_image : list Byte.byte := [Byte.x15; Byte.x00; Byte.x00].

Definition odd_loaded : vm :=
  mk_vm (mk_binary 3 1) stack_init (fread mem_init odd_image) reg_init 0 [] [].

(** ** Proof steps shared by the lemmas on [operation_exec] *)

(** Peel the steps of an operation that returned: every bound call
    returned too, and every test went one way. *)
Ltac peel H :=
  repeat match type of H with
    | bind ?m _ = Ret _ =>
        let E := fresh "E" in
        destruct m eqn:E; cbn [bind] in H; try discriminate H
    | (if ?t then _ else _) = Ret _ =>
        let T := fresh "T" in destruct t eqn:T
    | Ret _ = Ret _ => injection H as H
    end.

(** Reduce the projections of an updated machine. *)
Ltac state_simpl :=
  unfold wf_arrays, stored16 in *;
  cbn [binary stack memory registers pc stdin stdout
       with_binary with_stack with_memory with_registers with_pc
       with_stdin with_stdout] in *.

(** ** Further definitions used by the statements on single operations *)

(** A machine with distinct register contents and one character of input. *)
Definition sample_vm : vm :=
  mk_vm (mk_binary 0 0) stack_init mem_init sample_registers 0 [Byte.x41] [].

(** The slot of the register bank a register field names. *)
Definition reg_slot (a : Z) : nat := Z.to_nat (a - STORAGE_REG_LOW).

(** A field that names a register. *)
Definition is_register (a : Z) : Prop := STORAGE_REG_LOW <= a <= STORAGE_REG_HIGH.

(** The machine after [reg_write(a, value); *pc += width] went through. *)
Definition stored (s : vm) (a value width : Z) : vm :=
  with_pc (pc s + width) (with_registers (<[reg_slot a := value]> (registers s)) s).


(** The number of words by which an operation that does not redirect the
    program counter moves it: the constant of its [*pc += n]. *)
Definition instr_width (opcode : Z) : option Z :=
  match opcode with
  | 1 | 14 | 15 | 16 => Some 3
  | 2 | 3 | 19 | 20 => Some 2
  | 4 | 5 | 9 | 10 | 11 | 12 | 13 => Some 4
  | 21 => Some 1
  | _ => None
  end.

(** The operations that leave the register bank alone: push, jmp, jt, jf,
    wmem, call, ret, out, noop. *)
Definition keeps_registers (opcode : Z) : Prop :=
  In opcode [2; 6; 7; 8; 16; 17; 18; 19; 21].

(** The operations that use the call stack: push, pop, call, ret. *)
Definition uses_stack (opcode : Z) : Prop := In opcode [2; 3; 17; 18].

(** Split an operation that returned by its opcode and peel each case;
    [cases] and [enum] are the lemmas that enumerate the switch. *)
Ltac exec_cases opcode H cases enum :=
  let Hop := fresh "Hop" in
  let Hdef := fresh "Hdef" in
  destruct (cases opcode) as [Hop | Hdef];
  [| rewrite Hdef in H; discriminate H];
  apply enum in Hop;
  repeat (destruct Hop as [-> | Hop]); [.. | subst opcode];
  cbv beta iota zeta delta [operation_exec] in H; try discriminate H;
  peel H; try (unfold store in H; peel H); subst.

(** The functions an operation can fail in. *)
Definition failing_functions : list string :=
  ["val_get"; "reg_write"; "stack_pop"; "stack_push"]%string.

(** Peel the steps of an operation that ended in a fault: the steps before
    the failing one returned. *)
Ltac peel_fault H :=
  repeat match type of H with
    | bind ?m _ = Fail _ =>
        let E := fresh "E" in
        destruct m eqn:E; cbn [bind] in H; try discriminate H
    | (if ?t then _ else _) = Fail _ =>
        let T := fresh "T" in destruct t eqn:T
    | Ret _ = Fail _ => discriminate H
    | Fail _ = Fail _ => injection H as H
    end.

(** Pushing a sequence of values, first to last, and popping [n] values,
    the value popped first at the head of the result. *)
Fixpoint push_all (st : stack_t) (values : list Z) : outcome stack_t :=
  match values with
  | [] => Ret st
  | v :: rest => st' <- stack_push st v ;; push_all st' rest
  end.

Fixpoint pop_n (n : nat) (st : stack_t) : outcome (list Z * stack_t) :=
  match n with
  | O => Ret ([], st)
  | S k =>
      p <- stack_pop st ;;
      q <- pop_n k (snd p) ;;
      Ret (fst p :: fst q, snd q)
  end.

(** * Properties *)

Lemma wf_reg_init : wf_registers reg_init.
Proof. unfold wf_registers, reg_init. rewrite length_replicate. reflexivity. Qed.

Lemma wf_mem_init : wf_memory mem_init.
Proof. unfold wf_memory, mem_init. rewrite length_replicate. reflexivity. Qed.

Lemma wf_stack_init : wf_stack stack_init.
Proof.
  unfold wf_stack, stack_init; cbn [contents position].
  rewrite length_replicate.
  split; [reflexivity | unfold STACK_SIZE; lia].
Qed.

(** ** Array accesses *)

Lemma array_read_inside (arr : list Z) (i : Z) :
  0 <= i < Z.of_nat (length arr) ->
  exists v, arr !! Z.to_nat i = Some v /\ array_read arr i = Ret v.
Proof.
  intros Hi. unfold array_read.
  destruct (Z.ltb_spec i 0) as [Hneg | _]; [lia |].
  destruct (lookup_lt_is_Some_2 arr (Z.to_nat i)) as [v Hv]; [lia |].
  exists v. rewrite Hv. split; reflexivity.
Qed.

Lemma array_read_outside (arr : list Z) (i : Z) :
  i < 0 \/ Z.of_nat (length arr) <= i -> array_read arr i = Undef OutOfBounds.
Proof.
  intros Hi. unfold array_read.
  destruct (Z.ltb_spec i 0) as [Hneg | Hpos]; [reflexivity |].
  rewrite lookup_ge_None_2; [reflexivity | lia].
Qed.

Lemma array_read_Ret (arr : list Z) (i v : Z) :
  array_read arr i = Ret v -> 0 <= i /\ arr !! Z.to_nat i = Some v.
Proof.
  unfold array_read. destruct (Z.ltb_spec i 0); [discriminate |].
  destruct (arr !! Z.to_nat i) eqn:E; [| discriminate].
  intros [= ->]. split; [assumption | reflexivity].
Qed.

Lemma array_write_inside (arr : list Z) (i v : Z) :
  0 <= i < Z.of_nat (length arr) ->
  array_write arr i v = Ret (<[Z.to_nat i := v]> arr).
Proof.
  intros Hi. unfold array_write.
  destruct (Z.ltb_spec i 0); [lia |].
  destruct (Z.ltb_spec i (Z.of_nat (length arr))); [reflexivity | lia].
Qed.

Lemma array_write_outside (arr : list Z) (i v : Z) :
  i < 0 \/ Z.of_nat (length arr) <= i -> array_write arr i v = Undef OutOfBounds.
Proof.
  intros Hi. unfold array_write.
  destruct (Z.ltb_spec i 0); [reflexivity |].
  destruct (Z.ltb_spec i (Z.of_nat (length arr))); [lia | reflexivity].
Qed.

Lemma array_write_Ret (arr arr' : list Z) (i v : Z) :
  array_write arr i v = Ret arr' ->
  0 <= i < Z.of_nat (length arr) /\ arr' = <[Z.to_nat i := v]> arr.
Proof.
  unfold array_write. destruct (Z.ltb_spec i 0); [discriminate |].
  destruct (Z.ltb_spec i (Z.of_nat (length arr))); [| discriminate].
  intros [= <-]. split; [lia | reflexivity].
Qed.

Lemma array_write_then_read (arr : list Z) (i v : Z) :
  0 <= i < Z.of_nat (length arr) ->
  exists arr', array_write arr i v = Ret arr' /\ array_read arr' i = Ret v
               /\ length arr' = length arr.
Proof.
  intros Hi. exists (<[Z.to_nat i := v]> arr).
  split; [apply array_write_inside; assumption |].
  split; [| apply length_insert].
  unfold array_read. destruct (Z.ltb_spec i 0); [lia |].
  rewrite list_lookup_insert_eq; [reflexivity | lia].
Qed.

(** ** Operand resolution *)

Section Resolver.
Variable regs : list Z.
Hypothesis regs_wf : wf_registers regs.

Lemma reg_read_literal (f : Z) : f < STORAGE_REG_LOW -> reg_read regs f = Ret f.
Proof.
  intros Hf. unfold reg_read.
  destruct (Z.ltb_spec f STORAGE_REG_LOW); [reflexivity | lia].
Qed.

Lemma reg_read_register (f : Z) :
  STORAGE_REG_LOW <= f <= STORAGE_REG_HIGH ->
  exists v, regs !! Z.to_nat (f - STORAGE_REG_LOW) = Some v /\ reg_read regs f = Ret v.
Proof using regs_wf.
  intros Hf. unfold reg_read.
  destruct (Z.ltb_spec f STORAGE_REG_LOW); [lia |].
  apply array_read_inside. rewrite regs_wf.
  unfold STORAGE_REG_LOW, STORAGE_REG_HIGH, REGISTERS_SIZE in *. lia.
Qed.

(** Past the last register [reg_read] has no check of its own: it indexes
    the array of eight slots with [address - 32768]. *)
Lemma reg_read_beyond (f : Z) :
  STORAGE_REG_HIGH < f -> reg_read regs f = Undef OutOfBounds.
Proof using regs_wf.
  intros Hf. unfold reg_read.
  destruct (Z.ltb_spec f STORAGE_REG_LOW);
    [unfold STORAGE_REG_LOW, STORAGE_REG_HIGH in *; lia |].
  apply array_read_outside. right. rewrite regs_wf.
  unfold STORAGE_REG_LOW, STORAGE_REG_HIGH, REGISTERS_SIZE in *. lia.
Qed.

(** C1. [val_get] classifies every raw 16-bit field [f]: a field in
    0..32767 is returned unchanged, a field in 32768..32775 yields the
    current value of register slot [f - 32768], and a field in
    32776..65535 ends the run through [vm_fail] without returning. *)
Theorem val_get_classifies (f : Z) :
  0 <= f <= 65535 ->
  (f <= 32767 -> val_get regs f = Ret f) /\
  (32768 <= f <= 32775 ->
     exists v, regs !! Z.to_nat (f - 32768) = Some v /\ val_get regs f = Ret v) /\
  (32776 <= f -> val_get regs f = Fail (FunctionFailed "val_get")).
Proof using regs_wf.
  intros Hf. unfold val_get, VALUE_MAX_LITERAL, VALUE_MAX_REGISTER.
  repeat split.
  - intros Hlit. destruct (Z.leb_spec f 32767); [reflexivity | lia].
  - intros Hreg. destruct (Z.leb_spec f 32767); [lia |].
    destruct (Z.leb_spec f 32775); [| lia].
    apply reg_read_register. unfold STORAGE_REG_LOW, STORAGE_REG_HIGH. lia.
  - intros Hinv. destruct (Z.leb_spec f 32767); [lia |].
    destruct (Z.leb_spec f 32775); [lia | reflexivity].
Qed.
End Resolver.

Lemma val_get_classifies_witness :
  val_get sample_registers 1234 = Ret 1234 /\
  (exists v, sample_registers !! Z.to_nat (32771 - 32768) = Some v
             /\ val_get sample_registers 32771 = Ret v) /\
  val_get sample_registers 40000 = Fail (FunctionFailed "val_get").
Proof.
  assert (Hwf : wf_registers sample_registers) by reflexivity.
  split; [| split].
  - apply (val_get_classifies sample_registers Hwf 1234); lia.
  - apply (val_get_classifies sample_registers Hwf 32771); lia.
  - apply (val_get_classifies sample_registers Hwf 40000); lia.
Defined.

(** ** The set opcode *)

Section SetOpcode.
Variable s : vm.
Hypothesis regs_wf : wf_registers (registers s).

(** For a source field that is a literal or a register, [reg_read] and
    [val_get] agree, so [set] stores the resolved value. *)
Lemma reg_read_is_val_get (b : Z) :
  b <= VALUE_MAX_REGISTER -> reg_read (registers s) b = val_get (registers s) b.
Proof.
  intros Hb. unfold val_get.
  destruct (Z.leb_spec b VALUE_MAX_LITERAL) as [Hlit | Hlit].
  - apply reg_read_literal. unfold VALUE_MAX_LITERAL, STORAGE_REG_LOW in *. lia.
  - destruct (Z.leb_spec b VALUE_MAX_REGISTER); [reflexivity | lia].
Qed.

(** For a source field past the registers, [set] reaches no [vm_fail]: the
    read leaves the register array. *)
Lemma set_reads_beyond_registers (a b c : Z) :
  VALUE_MAX_REGISTER < b -> operation_exec s 1 a b c = Undef OutOfBounds.
Proof using regs_wf.
  intros Hb. unfold operation_exec.
  rewrite reg_read_beyond; [reflexivity | assumption |].
  unfold VALUE_MAX_REGISTER, STORAGE_REG_HIGH in *. lia.
Qed.
End SetOpcode.

(** C2 (the code departs from the specification). The specification asks
    that [set] with a source field in 32776..65535 ends the run with a
    fault.  At the field 32776 [val_get] does fault, but [set] reads its
    source with [reg_read], which indexes the register array at slot 8 of
    8: no fault is reported, from a freshly initialised machine as well as
    from a loaded image. *)
Theorem set_invalid_source_reaches_no_fault :
  val_get reg_init 32776 = Fail (FunctionFailed "val_get") /\
  reg_read reg_init 32776 = Undef OutOfBounds /\
  operation_exec (vm_init []) 1 32768 32776 0 = Undef OutOfBounds /\
  main (one_file set_invalid_image) command_line [] 1 = Undef OutOfBounds.
Proof.
  split; [reflexivity |].
  split; [apply (reg_read_beyond reg_init wf_reg_init); unfold STORAGE_REG_HIGH; lia |].
  split.
  - apply set_reads_beyond_registers; [exact wf_reg_init |].
    unfold VALUE_MAX_REGISTER; lia.
  - vm_compute. reflexivity.
Qed.

(** ** Memory *)

Section Memory.
Variable mem : list Z.
Hypothesis mem_wf : wf_memory mem.

(** Inside the array a write followed by a read of the same address gives
    back the written value. *)
Lemma mem_write_then_read (address value : Z) :
  0 <= address < MEMORY_SIZE ->
  exists mem', mem_write mem address value = Ret mem'
               /\ mem_read mem' address = Ret value /\ wf_memory mem'.
Proof using mem_wf.
  intros Ha. unfold mem_write, mem_read, wf_memory.
  destruct (array_write_then_read mem address value) as (mem' & Hw & Hr & Hl).
  - rewrite mem_wf. assumption.
  - exists mem'. rewrite Hl. auto.
Qed.

(** The array ends at slot [MEMORY_SIZE - 1] = 32766. *)
Lemma mem_access_beyond (address value : Z) :
  MEMORY_SIZE <= address ->
  mem_write mem address value = Undef OutOfBounds /\
  mem_read mem address = Undef OutOfBounds.
Proof using mem_wf.
  intros Ha. unfold mem_write, mem_read. split.
  - apply array_write_outside. rewrite mem_wf. lia.
  - apply array_read_outside. rewrite mem_wf. lia.
Qed.
End Memory.

(** C4 (the code departs from the specification). The specification asks
    for 32768 slots, so that address 32767 is valid storage.
    [memory.contents] is declared with [MEMORY_SIZE] = 32767 slots: a write
    or a read at address 32767 is one slot past the array, and a program
    that stores there leaves defined behaviour. *)
Theorem memory_top_address_is_outside :
  Z.of_nat (length mem_init) = 32767 /\
  (forall value, mem_write mem_init 32767 value = Undef OutOfBounds) /\
  mem_read mem_init 32767 = Undef OutOfBounds /\
  main (one_file wmem_top_image) command_line [] 1 = Undef OutOfBounds.
Proof.
  split; [exact wf_mem_init |].
  split; [intros value; apply (mem_access_beyond mem_init wf_mem_init);
          unfold MEMORY_SIZE; lia |].
  split; [apply (mem_access_beyond mem_init wf_mem_init 32767 0);
          unfold MEMORY_SIZE; lia |].
  vm_compute. reflexivity.
Qed.

(** ** The call stack *)

Section CallStack.
Variable st : stack_t.
Hypothesis contents_wf : Z.of_nat (length (contents st)) = STACK_SIZE.

Lemma stack_push_Ret (v : Z) :
  -1 <= position st < STACK_SIZE - 1 ->
  stack_push st v =
    Ret (mk_stack (position st + 1) (<[Z.to_nat (position st + 1) := v]> (contents st))).
Proof using contents_wf.
  intros Hp. unfold stack_push, stack_is_full.
  destruct (Z.geb_spec (position st) (STACK_SIZE - 1)); [lia |].
  rewrite array_write_inside; [reflexivity | lia].
Qed.

Lemma stack_view_push (v : Z) :
  -1 <= position st < STACK_SIZE - 1 ->
  stack_view (mk_stack (position st + 1)
                (<[Z.to_nat (position st + 1) := v]> (contents st)))
  = stack_view st ++ [v].
Proof using contents_wf.
  intros Hp. unfold stack_view; cbn [position contents].
  replace (Z.to_nat (position st + 1 + 1)) with (S (Z.to_nat (position st + 1))) by lia.
  rewrite (take_S_r _ _ v).
  - rewrite take_insert_ge; [reflexivity | lia].
  - apply list_lookup_insert_eq. lia.
Qed.

(** A push on a stack that is not full, and the pop that follows it. *)
Lemma stack_push_then_pop (v : Z) :
  -1 <= position st < STACK_SIZE - 1 ->
  exists st', stack_push st v = Ret st' /\
    stack_view st' = stack_view st ++ [v] /\
    exists st'', stack_pop st' = Ret (v, st'') /\
      position st'' = position st /\
      stack_view st'' = stack_view st.
Proof using contents_wf.
  intros Hp.
  set (c' := <[Z.to_nat (position st + 1) := v]> (contents st)).
  exists (mk_stack (position st + 1) c').
  split; [apply stack_push_Ret; assumption |].
  split; [apply stack_view_push; assumption |].
  exists (mk_stack (position st) c').
  unfold stack_pop, stack_is_empty; cbn [position contents].
  destruct (Z.ltb_spec (position st + 1) 0); [lia |].
  unfold array_read.
  destruct (Z.ltb_spec (position st + 1) 0); [lia |].
  subst c'. rewrite list_lookup_insert_eq by lia. cbn [bind].
  replace (position st + 1 - 1) with (position st) by lia.
  split; [reflexivity |]. split; [reflexivity |].
  unfold stack_view; cbn [position contents].
  apply take_insert_ge. lia.
Qed.

(** C5. The call stack is a LIFO of capacity 32768: on a stack that is not
    full, [push v] succeeds and puts [v] on top, and the [pop] that follows
    returns [v] and gives back the previous position and the previous
    words; [pop] on an empty stack and [push] on a full one end the run
    through [vm_fail]; and the stack is full exactly when it holds 32768
    words. *)
Theorem stack_lifo (v : Z) :
  (-1 <= position st < STACK_SIZE - 1 ->
     exists st', stack_push st v = Ret st' /\
       stack_view st' = stack_view st ++ [v] /\
       exists st'', stack_pop st' = Ret (v, st'') /\
         position st'' = position st /\
         stack_view st'' = stack_view st) /\
  (position st < 0 -> stack_pop st = Fail (FunctionFailed "stack_pop")) /\
  (STACK_SIZE - 1 <= position st ->
     stack_push st v = Fail (FunctionFailed "stack_push")) /\
  (-1 <= position st ->
     (stack_is_full st = true <-> Z.of_nat (length (stack_view st)) = 32768)).
Proof using contents_wf.
  split; [| split; [| split]].
  - apply stack_push_then_pop.
  - intros Hp. unfold stack_pop, stack_is_empty.
    destruct (Z.ltb_spec (position st) 0); [reflexivity | lia].
  - intros Hp. unfold stack_push, stack_is_full.
    destruct (Z.geb_spec (position st) (STACK_SIZE - 1)); [reflexivity | lia].
  - intros Hp. unfold stack_is_full, stack_view.
    rewrite length_take. unfold STACK_SIZE in *.
    destruct (Z.geb_spec (position st) (32768 - 1)) as [Hfull | Hfree];
      split; intros Hx; try lia; try reflexivity; discriminate.
Qed.
End CallStack.

Lemma stack_lifo_witness :
  exists st', stack_push stack_init 7 = Ret st' /\
    stack_view st' = stack_view stack_init ++ [7] /\
    exists st'', stack_pop st' = Ret (7, st'') /\
      position st'' = position stack_init /\
      stack_view st'' = stack_view stack_init.
Proof.
  apply (stack_lifo stack_init (proj1 wf_stack_init) 7).
  unfold stack_init, STACK_SIZE; cbn [position]. lia.
Defined.

(** ** The mod opcode *)

Section ModOpcode.
Variable s : vm.

(** With a divisor that is not zero, [mod] stores the remainder and moves
    the program counter four words on. *)
Lemma mod_nonzero (a b c x y : Z) :
  val_get (registers s) b = Ret x ->
  val_get (registers s) c = Ret y ->
  0 <= x -> 0 < y ->
  operation_exec s 11 a b c = store s a (x mod y) 4.
Proof.
  intros Hb Hc Hx Hy. unfold operation_exec. rewrite Hb, Hc. cbn [bind].
  unfold int_rem. destruct (Z.eqb_spec y 0); [lia |]. cbn [bind].
  rewrite Z.rem_mod_nonneg by lia. reflexivity.
Qed.

(** With a divisor that resolves to zero the C operator [%] is applied to
    a zero right operand. *)
Lemma mod_zero (a b c x : Z) :
  val_get (registers s) b = Ret x ->
  val_get (registers s) c = Ret 0 ->
  operation_exec s 11 a b c = Undef DivisionByZero.
Proof.
  intros Hb Hc. unfold operation_exec. rewrite Hb, Hc. reflexivity.
Qed.
End ModOpcode.

(** C6 (the code departs from the specification). The specification asks
    that [mod] stores a result for every pair of operands that resolve.
    The operands 5 and 0 both resolve, and the code then evaluates [5 % 0]
    with no check of the divisor: nothing is stored, the program counter is
    not advanced, and the behaviour is undefined. *)
Theorem mod_by_zero_is_unguarded :
  val_get reg_init 5 = Ret 5 /\ val_get reg_init 0 = Ret 0 /\
  operation_exec (vm_init []) 11 32768 5 0 = Undef DivisionByZero /\
  main (one_file mod_zero_image) command_line [] 1 = Undef DivisionByZero.
Proof.
  split; [reflexivity |]. split; [reflexivity |].
  split; [apply (mod_zero (vm_init []) 32768 5 0 5); reflexivity |].
  vm_compute. reflexivity.
Qed.

(** ** Inversion of the operations that return *)

Lemma word16_land (x y : Z) : word16 x -> word16 y -> word16 (Z.land x y).
Proof.
  unfold word16. intros Hx Hy. split.
  - apply Z.land_nonneg. lia.
  - destruct (Z.eq_dec (Z.land x y) 0) as [-> | Hnz]; [lia |].
    assert (0 <= Z.land x y) by (apply Z.land_nonneg; lia).
    assert (Hlog : Z.log2 (Z.land x y) < 16).
    { pose proof (Z.log2_land x y ltac:(lia) ltac:(lia)) as Hl.
      destruct (Z.eq_dec x 0) as [-> | Hx0]; [rewrite Z.land_0_l in Hnz; lia |].
      assert (Z.log2 x < 16) by (apply Z.log2_lt_pow2; lia). lia. }
    apply Z.log2_lt_pow2 in Hlog; lia.
Qed.

Lemma word16_lor (x y : Z) : word16 x -> word16 y -> word16 (Z.lor x y).
Proof.
  unfold word16. intros Hx Hy.
  assert (H0 : 0 <= Z.lor x y) by (apply Z.lor_nonneg; lia).
  split; [assumption |].
  destruct (Z.eq_dec (Z.lor x y) 0) as [-> | Hnz]; [lia |].
  assert (Hlog : Z.log2 (Z.lor x y) < 16).
  { rewrite Z.log2_lor by lia.
    assert (Z.log2 x < 16).
    { destruct (Z.eq_dec x 0) as [-> | ?]; [reflexivity |].
      apply Z.log2_lt_pow2; lia. }
    assert (Z.log2 y < 16).
    { destruct (Z.eq_dec y 0) as [-> | ?]; [reflexivity |].
      apply Z.log2_lt_pow2; lia. }
    lia. }
  apply Z.log2_lt_pow2 in Hlog; lia.
Qed.

Lemma word15_not (x : Z) : word15 (Z.land (Z.lnot x) 32767).
Proof.
  unfold word15. change 32767 with (Z.ones 15) at 1 2.
  rewrite Z.land_ones by lia.
  pose proof (Z.mod_pos_bound (Z.lnot x) (2 ^ 15) ltac:(lia)). lia.
Qed.

Lemma word16_u16 (z : Z) : word16 (u16 z).
Proof.
  unfold word16, u16. pose proof (Z.mod_pos_bound z 65536 ltac:(lia)). lia.
Qed.

Lemma word16_byte (b : Byte.byte) : 0 <= byte_val b <= 255.
Proof.
  unfold byte_val. pose proof (Byte.to_N_bounded b). lia.
Qed.

Lemma reg_read_word16 (regs : list Z) (f x : Z) :
  Forall word16 regs -> word16 f -> reg_read regs f = Ret x -> word16 x.
Proof.
  intros Hregs Hf. unfold reg_read.
  destruct (f <? STORAGE_REG_LOW); [intros [= <-]; assumption |].
  intros Hr. apply array_read_Ret in Hr as [_ Hl].
  exact (Forall_lookup_1 _ _ _ _ Hregs Hl).
Qed.

Lemma val_get_word16 (regs : list Z) (f x : Z) :
  Forall word16 regs -> word16 f -> val_get regs f = Ret x -> word16 x.
Proof.
  intros Hregs Hf. unfold val_get.
  destruct (f <=? VALUE_MAX_LITERAL); [intros [= <-]; assumption |].
  destruct (f <=? VALUE_MAX_REGISTER); [| discriminate].
  apply reg_read_word16; assumption.
Qed.

Lemma reg_write_Ret (regs regs' : list Z) (a v : Z) :
  reg_write regs a v = Ret regs' ->
  STORAGE_REG_LOW <= a <= STORAGE_REG_HIGH /\
  a - STORAGE_REG_LOW < Z.of_nat (length regs) /\
  regs' = <[Z.to_nat (a - STORAGE_REG_LOW) := v]> regs.
Proof.
  unfold reg_write.
  destruct (Z.ltb_spec a STORAGE_REG_LOW); [discriminate |].
  destruct (Z.gtb_spec a STORAGE_REG_HIGH); [discriminate |]. cbn [orb].
  intros Hw. apply array_write_Ret in Hw as [Hi ->]. repeat split; lia.
Qed.

Lemma stack_push_inv (st st' : stack_t) (v : Z) :
  stack_push st v = Ret st' ->
  position st < STACK_SIZE - 1 /\ 0 <= position st + 1 < Z.of_nat (length (contents st)) /\
  st' = mk_stack (position st + 1) (<[Z.to_nat (position st + 1) := v]> (contents st)).
Proof.
  unfold stack_push, stack_is_full.
  destruct (Z.geb_spec (position st) (STACK_SIZE - 1)); [discriminate |].
  destruct (array_write (contents st) (position st + 1) v) as [c | | |] eqn:E;
    try discriminate.
  apply array_write_Ret in E as [Hi ->]. intros [= <-]. repeat split; lia.
Qed.

Lemma stack_pop_inv (st : stack_t) (p : Z * stack_t) :
  stack_pop st = Ret p ->
  0 <= position st /\ contents st !! Z.to_nat (position st) = Some (fst p) /\
  snd p = mk_stack (position st - 1) (contents st).
Proof.
  unfold stack_pop, stack_is_empty.
  destruct (Z.ltb_spec (position st) 0); [discriminate |].
  destruct (array_read (contents st) (position st)) as [v | | |] eqn:E;
    try discriminate.
  apply array_read_Ret in E as [_ Hl]. intros [= <-]. cbn [fst snd]. auto.
Qed.

(** The switch of [operation_exec] has the cases 0 to 21 and the default. *)
Lemma opcode_cases (opcode : Z) :
  (0 <= opcode <= 21) \/
  (forall s a b c, operation_exec s opcode a b c = Fail (UnknownOpcode opcode (pc s))).
Proof.
  destruct opcode as [| p | p]; [left; lia | | right; reflexivity].
  do 5 (try (destruct p as [p | p |]; try (left; lia); try (right; reflexivity))).
Qed.

Lemma opcode_enum (opcode : Z) :
  0 <= opcode <= 21 ->
  opcode = 0 \/ opcode = 1 \/ opcode = 2 \/ opcode = 3 \/ opcode = 4 \/ opcode = 5 \/
  opcode = 6 \/ opcode = 7 \/ opcode = 8 \/ opcode = 9 \/ opcode = 10 \/ opcode = 11 \/
  opcode = 12 \/ opcode = 13 \/ opcode = 14 \/ opcode = 15 \/ opcode = 16 \/
  opcode = 17 \/ opcode = 18 \/ opcode = 19 \/ opcode = 20 \/ opcode = 21.
Proof. lia. Qed.

Lemma wf_stack_push (st st' : stack_t) (v : Z) :
  wf_stack st -> stack_push st v = Ret st' -> wf_stack st'.
Proof.
  intros [Hl Hp] Hs. apply stack_push_inv in Hs as (Hfree & _ & ->).
  unfold wf_stack; cbn [position contents]. rewrite length_insert.
  unfold STACK_SIZE in *. lia.
Qed.

Lemma wf_stack_pop (st : stack_t) (p : Z * stack_t) :
  wf_stack st -> stack_pop st = Ret p -> wf_stack (snd p).
Proof.
  intros [Hl Hp] Hs. apply stack_pop_inv in Hs as (Hne & _ & ->).
  unfold wf_stack; cbn [position contents]. lia.
Qed.

Lemma wf_reg_write (regs regs' : list Z) (a v : Z) :
  wf_registers regs -> reg_write regs a v = Ret regs' -> wf_registers regs'.
Proof.
  intros Hl Hw. apply reg_write_Ret in Hw as (_ & _ & ->).
  unfold wf_registers. rewrite length_insert. assumption.
Qed.

Lemma stored_reg_write (regs regs' : list Z) (a v : Z) :
  Forall word16 regs -> word16 v -> reg_write regs a v = Ret regs' ->
  Forall word16 regs'.
Proof.
  intros Hr Hv Hw. apply reg_write_Ret in Hw as (_ & _ & ->).
  apply Forall_insert; assumption.
Qed.

Lemma store_preserves (s s' : vm) (a v width : Z) :
  wf_arrays s -> stored16 s -> word16 v ->
  store s a v width = Ret s' ->
  wf_arrays s' /\ stored16 s' /\ binary s' = binary s.
Proof.
  intros (Hr & Hm & Hs) (Sr & Sm & Ss) Hv H. unfold store in H. peel H. subst s'.
  unfold wf_arrays, stored16; cbn.
  eauto 10 using wf_reg_write, stored_reg_write.
Qed.

Lemma stored_stack_push (st st' : stack_t) (v : Z) :
  Forall word16 (contents st) -> word16 v -> stack_push st v = Ret st' ->
  Forall word16 (contents st').
Proof.
  intros Hc Hv Hs. apply stack_push_inv in Hs as (_ & _ & ->).
  cbn [contents]. apply Forall_insert; assumption.
Qed.

Lemma stored_stack_pop (st : stack_t) (p : Z * stack_t) :
  Forall word16 (contents st) -> stack_pop st = Ret p ->
  word16 (fst p) /\ Forall word16 (contents (snd p)).
Proof.
  intros Hc Hs. apply stack_pop_inv in Hs as (_ & Hl & ->).
  split; [exact (Forall_lookup_1 _ _ _ _ Hc Hl) | assumption].
Qed.

Lemma word16_bool_int (t : bool) : word16 (bool_int t).
Proof. unfold word16. destruct t; cbn; lia. Qed.

Lemma word15_word16 (v : Z) : word15 v -> word16 v.
Proof. unfold word15, word16. lia. Qed.

Lemma word15_mod (z : Z) : word15 (z mod ARCH_MODULO).
Proof.
  unfold word15, ARCH_MODULO. pose proof (Z.mod_pos_bound z 32768 ltac:(lia)). lia.
Qed.

Lemma int_rem_word16 (x y z : Z) :
  word16 x -> word16 y -> int_rem x y = Ret z -> word16 z.
Proof.
  unfold int_rem, word16. intros Hx Hy.
  destruct (Z.eqb_spec y 0); [discriminate |]. intros [= <-].
  pose proof (Z.rem_bound_pos x y ltac:(lia) ltac:(lia)).
  pose proof (Z.rem_le x y ltac:(lia) ltac:(lia)). lia.
Qed.

Lemma mem_read_word16 (mem : list Z) (x v : Z) :
  Forall word16 mem -> mem_read mem x = Ret v -> word16 v.
Proof.
  intros Hm Hr. apply array_read_Ret in Hr as [_ Hl].
  exact (Forall_lookup_1 _ _ _ _ Hm Hl).
Qed.

Lemma wf_mem_write (mem mem' : list Z) (x v : Z) :
  wf_memory mem -> mem_write mem x v = Ret mem' -> wf_memory mem'.
Proof.
  intros Hl Hw. apply array_write_Ret in Hw as [_ ->].
  unfold wf_memory. rewrite length_insert. assumption.
Qed.

Lemma stored_mem_write (mem mem' : list Z) (x v : Z) :
  Forall word16 mem -> word16 v -> mem_write mem x v = Ret mem' ->
  Forall word16 mem'.
Proof.
  intros Hm Hv Hw. apply array_write_Ret in Hw as [_ ->].
  apply Forall_insert; assumption.
Qed.

(** Every operation that returns leaves arrays of the declared sizes that
    hold 16-bit values, and does not touch [binary]. *)
Lemma operation_exec_preserves (s s' : vm) (opcode a b c : Z) :
  wf_arrays s -> stored16 s -> word16 a -> word16 b -> word16 c ->
  operation_exec s opcode a b c = Ret s' ->
  wf_arrays s' /\ stored16 s' /\ binary s' = binary s.
Proof.
  intros Hwf Hst Ha Hb Hc H.
  destruct (opcode_cases opcode) as [Hop | Hdef]; [| rewrite Hdef in H; discriminate].
  pose proof Hwf as (Hr & Hm & Hs). pose proof Hst as (Sr & Sm & Ss).
  apply opcode_enum in Hop.
  repeat (destruct Hop as [-> | Hop]); [.. | subst];
    cbv beta iota zeta delta [operation_exec] in H; try discriminate H.
  all: peel H.
  all: repeat match goal with
         | E : val_get _ _ = Ret _ |- _ => apply val_get_word16 in E; [| assumption ..]
         | E : reg_read _ _ = Ret _ |- _ => apply reg_read_word16 in E; [| assumption ..]
         | E : int_rem _ _ = Ret _ |- _ => apply int_rem_word16 in E; [| assumption ..]
         end.
  all: try (apply store_preserves in H; [exact H | try assumption ..]).
  all: eauto using word16_bool_int, word15_word16, word15_mod, word15_not,
         word16_land, word16_lor, word16_u16, mem_read_word16.
  all: try subst s'; state_simpl.
  all: repeat match goal with
         | E : stack_pop _ = Ret _ |- _ =>
             pose proof (wf_stack_pop _ _ Hs E);
             pose proof (stored_stack_pop _ _ Ss E) as [? ?]; clear E
         end.
  all: eauto 10 using wf_stack_push, stored_stack_push, wf_mem_write,
         stored_mem_write, word16_u16.
Qed.

(** ** Loading *)

(** Induction over a byte sequence two bytes at a time, as [fread] walks it. *)
Lemma byte_pairs_ind (P : list Byte.byte -> Prop) :
  P [] -> (forall lo, P [lo]) ->
  (forall lo hi rest, P rest -> P (lo :: hi :: rest)) ->
  forall bytes, P bytes.
Proof.
  intros Hnil Hone Hpair.
  assert (Hboth : forall bytes, P bytes /\ forall lo, P (lo :: bytes)).
  { induction bytes as [| hi rest [IH1 IH2]]; split; auto. }
  intros bytes. apply Hboth.
Qed.

Lemma fread_length (bytes : list Byte.byte) :
  forall mem, length (fread mem bytes) = length mem.
Proof.
  induction bytes as [| lo | lo hi rest IH] using byte_pairs_ind;
    intros [| w mem]; cbn [fread length]; try reflexivity.
  rewrite IH. reflexivity.
Qed.

Lemma fread_word16 (bytes : list Byte.byte) :
  forall mem, Forall word16 mem -> Forall word16 (fread mem bytes).
Proof.
  induction bytes as [| lo | lo hi rest IH] using byte_pairs_ind;
    intros [| w mem] Hmem; cbn [fread]; try assumption.
  - inversion Hmem as [| ? ? Hw Hrest]; subst. constructor; [| assumption].
    pose proof (word16_byte lo). unfold word16 in *.
    pose proof (Z.div_pos w 256 ltac:(lia) ltac:(lia)).
    assert (w / 256 < 256) by (apply Z.div_lt_upper_bound; lia). lia.
  - inversion Hmem as [| ? ? Hw Hrest]; subst. constructor; [| auto].
    pose proof (word16_byte lo). pose proof (word16_byte hi).
    unfold word16. lia.
Qed.

(** What [binary_load] returns, when it returns. *)
Lemma binary_load_Ret (bytes : list Byte.byte) (s s' : vm) :
  binary_load (Some bytes) s = Ret s' ->
  Z.of_nat (length bytes) <= 2 * Z.of_nat (length (memory s)) /\
  s' = with_binary (mk_binary (Z.of_nat (length bytes)) (Z.of_nat (length bytes) / 2))
         (with_memory (fread (memory s) bytes) s).
Proof.
  unfold binary_load.
  destruct (Z.gtb_spec (Z.of_nat (length bytes)) (2 * Z.of_nat (length (memory s))));
    [discriminate |].
  intros [= <-]. split; [lia | reflexivity].
Qed.

Lemma stored16_vm_init (input : list Byte.byte) : stored16 (vm_init input).
Proof.
  unfold stored16, vm_init, reg_init, mem_init, stack_init;
    cbn [registers memory stack contents].
  repeat split; apply Forall_replicate; unfold word16; lia.
Qed.

Lemma wf_arrays_vm_init (input : list Byte.byte) : wf_arrays (vm_init input).
Proof.
  unfold wf_arrays, vm_init; cbn [registers memory stack].
  auto using wf_reg_init, wf_mem_init, wf_stack_init.
Qed.

(** ** The loop *)

(** What a turn of the loop did, when the machine is still running after it. *)
Lemma cycle_Ret (s s' : vm) :
  cycle s = Ret s' ->
  exists opcode a b c,
    fetch s = Ret (opcode, a, b, c) /\
    operation_exec s opcode a b c = Ret s' /\
    0 <= pc s' <= bin_length (binary s').
Proof.
  unfold cycle. intros H.
  destruct (fetch s) as [[[[opcode a] b] c] | | |] eqn:Ef; cbn [bind] in H;
    try discriminate H.
  destruct (operation_exec s opcode a b c) as [s1 | | |] eqn:Eo; cbn [bind] in H;
    try discriminate H.
  destruct (Z.ltb_spec (pc s1) 0); [discriminate H |].
  destruct (Z.gtb_spec (pc s1) (bin_length (binary s1))); [discriminate H |].
  cbn [orb] in H. injection H as <-.
  exists opcode, a, b, c. repeat split; auto; lia.
Qed.

Lemma fetch_word16 (s : vm) (opcode a b c : Z) :
  Forall word16 (memory s) -> fetch s = Ret (opcode, a, b, c) ->
  word16 opcode /\ word16 a /\ word16 b /\ word16 c.
Proof.
  intros Hm H. unfold fetch in H. peel H. subst.
  repeat split; eapply mem_read_word16; eassumption.
Qed.

(** Every machine of a run has arrays of the declared sizes holding 16-bit
    values, and a program counter inside the loaded program. *)
Lemma reachable_wf (file input : list Byte.byte) (s : vm) :
  reachable file input s -> wf s /\ stored16 s.
Proof.
  induction 1 as [s Hload | s s' Hreach [Hwf Hst] Hcycle].
  - apply binary_load_Ret in Hload as [Hsize ->].
    pose proof (wf_arrays_vm_init input) as (Hr & Hm & Hs).
    pose proof (stored16_vm_init input) as (Sr & Sm & Ss).
    unfold wf, wf_arrays, stored16 in *.
    cbn [binary stack memory registers pc with_binary with_memory bin_length] in *.
    change (pc (vm_init input)) with 0.
    unfold wf_memory in *. rewrite fread_length.
    split; [| auto using fread_word16].
    split; [auto |].
    pose proof (Z.div_pos (Z.of_nat (length file)) 2 ltac:(lia) ltac:(lia)).
    assert (Z.of_nat (length file) / 2 <= MEMORY_SIZE).
    { apply Z.div_le_upper_bound; lia. }
    lia.
  - apply cycle_Ret in Hcycle as (opcode & a & b & c & Hf & Ho & Hpc).
    destruct Hwf as (Harr & _ & Hlen).
    pose proof Hst as (_ & Sm & _).
    apply fetch_word16 in Hf as (_ & Ha & Hb & Hc); [| assumption].
    destruct (operation_exec_preserves _ _ _ _ _ _ Harr Hst Ha Hb Hc Ho)
      as (Harr' & Hst' & Hbin).
    split; [| assumption].
    unfold wf. rewrite Hbin in *. auto.
Qed.

(** ** The range of stored values *)








(** ** call and ret *)

Section CallRet.
Variables file input : list Byte.byte.
Variable s : vm.
Hypothesis s_reachable : reachable file input s.

(** The return address [pc + 2] survives the conversion to [unsigned
    short]: the program counter of a reachable machine is at most 32767. *)
Lemma return_address_fits : u16 (pc s + 2) = pc s + 2.
Proof using s_reachable.
  destruct (reachable_wf _ _ _ s_reachable) as [(_ & Hpc & Hlen) _].
  unfold u16, MEMORY_SIZE in *. apply Z.mod_small. lia.
Qed.

(** C7. When [call] executes at program counter [p] (on a stack that is
    not full, with an operand that resolves to [t]), [p + 2] is pushed on
    the call stack and the program counter becomes [t]; a [ret] executed
    next sets the program counter to [p + 2] and leaves the stack as it was
    before the call, registers and memory untouched; and when the [ret] is
    what the loop fetches and [p + 2] is within the loaded program, the
    loop goes on from there. *)
Theorem call_then_ret (a b c t : Z) :
  position (stack s) < STACK_SIZE - 1 ->
  val_get (registers s) a = Ret t ->
  exists s1,
    operation_exec s 17 a b c = Ret s1 /\
    pc s1 = t /\
    stack_view (stack s1) = stack_view (stack s) ++ [pc s + 2] /\
    forall a' b' c', exists s2,
      operation_exec s1 18 a' b' c' = Ret s2 /\
      pc s2 = pc s + 2 /\
      position (stack s2) = position (stack s) /\
      stack_view (stack s2) = stack_view (stack s) /\
      registers s2 = registers s /\ memory s2 = memory s /\
      (fetch s1 = Ret (18, a', b', c') ->
       pc s + 2 <= bin_length (binary s) -> cycle s1 = Ret s2).
Proof using s_reachable.
  intros Hfree Ha.
  destruct (reachable_wf _ _ _ s_reachable) as [((_ & _ & Hlen & Hpos) & Hpc & _) _].
  assert (Hrange : -1 <= position (stack s) < STACK_SIZE - 1) by lia.
  destruct (stack_push_then_pop (stack s) Hlen (pc s + 2) Hrange)
    as (st1 & Epush & Hview1 & st2 & Epop & Hpos2 & Hview2).
  exists (with_pc t (with_stack st1 s)).
  cbv beta iota zeta delta [operation_exec].
  rewrite return_address_fits, Epush, Ha. cbn [bind].
  split; [reflexivity |]. split; [reflexivity |].
  split; [exact Hview1 |].
  intros a' b' c'.
  exists (with_pc (pc s + 2) (with_stack st2 (with_pc t (with_stack st1 s)))).
  cbn [stack with_pc with_stack]. rewrite Epop. cbn [bind fst snd].
  repeat (split; [first [reflexivity | assumption] |]).
  intros Hfetch Hin. unfold cycle. rewrite Hfetch. cbn [bind].
  cbv beta iota zeta delta [operation_exec].
  cbn [stack with_pc with_stack]. rewrite Epop.
  cbn [bind fst snd pc with_pc with_stack binary].
  destruct (Z.ltb_spec (pc s + 2) 0); [lia |].
  destruct (Z.gtb_spec (pc s + 2) (bin_length (binary s))); [lia | reflexivity].
Qed.
End CallRet.

Lemma call_then_ret_witness :
  exists s1,
    operation_exec call_ret_loaded 17 3 0 18 = Ret s1 /\
    pc s1 = 3 /\
    stack_view (stack s1) = stack_view (stack call_ret_loaded) ++ [pc call_ret_loaded + 2] /\
    forall a' b' c', exists s2,
      operation_exec s1 18 a' b' c' = Ret s2 /\
      pc s2 = pc call_ret_loaded + 2 /\
      position (stack s2) = position (stack call_ret_loaded) /\
      stack_view (stack s2) = stack_view (stack call_ret_loaded) /\
      registers s2 = registers call_ret_loaded /\
      memory s2 = memory call_ret_loaded /\
      (fetch s1 = Ret (18, a', b', c') ->
       pc call_ret_loaded + 2 <= bin_length (binary call_ret_loaded) ->
       cycle s1 = Ret s2).
Proof.
  apply (call_then_ret call_ret_image [] call_ret_loaded).
  - apply reach_boot.
    vm_cast_no_check (@eq_refl (outcome vm) (Ret call_ret_loaded)).
  - unfold call_ret_loaded, stack_init, STACK_SIZE; cbn [stack position]. lia.
  - reflexivity.
Defined.

(** ** The check of the program counter *)

(** A machine still running after at least one turn has its program
    counter within the loaded program. *)
Lemma run_pc_in_range (fuel : nat) :
  forall s s', run (S fuel) s = Ret s' -> 0 <= pc s' <= bin_length (binary s').
Proof.
  induction fuel as [| fuel IH]; intros s s' H; cbn [run] in H.
  - destruct (cycle s) as [s1 | | |] eqn:Ec; cbn [bind] in H; try discriminate H.
    injection H as <-. apply cycle_Ret in Ec as (? & ? & ? & ? & _ & _ & Hpc).
    exact Hpc.
  - destruct (cycle s) as [s1 | | |] eqn:Ec; cbn [bind] in H; try discriminate H.
    apply (IH s1 s'). exact H.
Qed.

Section PcCheck.
Variable s : vm.
Variables opcode a b c : Z.
Variable s' : vm.
Hypothesis fetched : fetch s = Ret (opcode, a, b, c).
Hypothesis executed : operation_exec s opcode a b c = Ret s'.

Lemma cycle_checks_pc :
  cycle s = if (pc s' <? 0) || (pc s' >? bin_length (binary s'))
            then Fail PcOutOfBounds else Ret s'.
Proof using fetched executed.
  unfold cycle. rewrite fetched. cbn [bind]. rewrite executed. reflexivity.
Qed.

(** C8. After every turn of the loop in which the operation returned, the
    engine compares the program counter with 0 and with the loaded length:
    within the range the machine goes on from the state the operation left;
    outside it the run ends, whatever more turns were due, with the fault
    reported as "Program counter out of bounds."; a machine that is still
    running has its program counter in the range; and a [jmp] whose target
    lies beyond the loaded length ends the run so. *)
Theorem pc_checked_after_every_step (fuel : nat) :
  (0 <= pc s' <= bin_length (binary s') -> cycle s = Ret s') /\
  (pc s' < 0 \/ bin_length (binary s') < pc s' ->
     run (S fuel) s = Fail PcOutOfBounds) /\
  vm_fail_fmt PcOutOfBounds = "Program counter out of bounds."%string /\
  (forall s'', run (S fuel) s = Ret s'' ->
     0 <= pc s'' <= bin_length (binary s'')) /\
  (opcode = 6 -> forall t,
     val_get (registers s) a = Ret t -> bin_length (binary s) < t ->
     run (S fuel) s = Fail PcOutOfBounds).
Proof using fetched executed.
  assert (Hout : pc s' < 0 \/ bin_length (binary s') < pc s' ->
                 run (S fuel) s = Fail PcOutOfBounds).
  { intros Hpc. cbn [run]. rewrite cycle_checks_pc.
    destruct (Z.ltb_spec (pc s') 0); [reflexivity |].
    destruct (Z.gtb_spec (pc s') (bin_length (binary s'))); [reflexivity | lia]. }
  split; [| split; [exact Hout | split; [reflexivity | split]]].
  - intros Hpc. rewrite cycle_checks_pc.
    destruct (Z.ltb_spec (pc s') 0); [lia |].
    destruct (Z.gtb_spec (pc s') (bin_length (binary s'))); [lia | reflexivity].
  - apply run_pc_in_range.
  - intros -> t Ha Ht. apply Hout. right.
    pose proof executed as He.
    cbv beta iota zeta delta [operation_exec] in He. rewrite Ha in He.
    cbn [bind] in He. injection He as <-. cbn [pc binary with_pc]. exact Ht.
Qed.
End PcCheck.

Lemma pc_checked_after_every_step_witness :
  run 3 jmp_far_loaded = Fail PcOutOfBounds.
Proof.
  refine (proj2 (proj2 (proj2 (proj2
            (pc_checked_after_every_step jmp_far_loaded 6 100 0 0
               (with_pc 100 jmp_far_loaded) _ _ 2%nat)))) eq_refl 100 _ _).
  - vm_compute. reflexivity.
  - reflexivity.
  - reflexivity.
  - unfold jmp_far_loaded; cbn [binary bin_length]. lia.
Defined.

(** ** What loading leaves in memory *)

Lemma fread_lookup (bytes : list Byte.byte) :
  forall (mem : list Z) (i : nat),
    (i < length mem)%nat ->
    fread mem bytes !! i =
      match bytes !! (2 * i)%nat, bytes !! (2 * i + 1)%nat with
      | Some lo, Some hi => Some (byte_val lo + 256 * byte_val hi)
      | Some lo, None => (fun w => byte_val lo + 256 * (w / 256)) <$> mem !! i
      | None, _ => mem !! i
      end.
Proof.
  induction bytes as [| lo | lo hi rest IH] using byte_pairs_ind;
    intros [| w mem] i Hi; cbn [length] in Hi; try lia.
  - reflexivity.
  - destruct i as [| i]; [reflexivity |].
    replace (2 * S i)%nat with (S (S (2 * i))) by lia. reflexivity.
  - destruct i as [| i]; [reflexivity |].
    replace (2 * S i)%nat with (S (S (2 * i))) by lia.
    cbn [fread]. rewrite lookup_cons_ne_0 by lia. cbn [Nat.pred].
    rewrite IH by lia. reflexivity.
Qed.

Lemma mem_init_lookup (i : nat) :
  (Z.of_nat i < MEMORY_SIZE) -> mem_init !! i = Some 0.
Proof.
  intros Hi. unfold mem_init. apply lookup_replicate_2. lia.
Qed.

(** C9, as stated, fails.  A file of three bytes is loaded without any
    error: the program length is 3 / 2 = 1, the stray third byte is the low
    half of the word at address 1, and the engine starts, executes the
    [noop] at address 0 and halts on the word at address 1. *)
Lemma odd_length_image_is_loaded :
  Z.odd (Z.of_nat (length odd_image)) = true /\
  binary_load (Some odd_image) (vm_init []) = Ret odd_loaded /\
  bin_length (binary odd_loaded) = 1 /\
  cycle odd_loaded = Ret (with_pc 1 odd_loaded) /\
  main (one_file odd_image) command_line [] 2 = Halt.
Proof.
  split; [reflexivity |].
  split; [vm_cast_no_check (@eq_refl (outcome vm) (Ret odd_loaded)) |].
  split; [reflexivity |].
  split; [vm_cast_no_check (@eq_refl (outcome vm) (Ret (with_pc 1 odd_loaded))) |].
  vm_compute. reflexivity.
Qed.

(** C9 (amended). Every byte sequence that fits the address space (at most
    65534 bytes), of even or of odd length, is loaded and the engine is
    started on it: the recorded size is the byte count and the recorded
    program length is the byte count divided by 2, rounded down; every
    complete pair of bytes is placed, low byte first, as the word at the
    address of the pair, from address 0 on; a last single byte becomes the
    word after them; the rest of memory stays zero. *)
Theorem binary_load_places_words (bytes input : list Byte.byte) :
  Z.of_nat (length bytes) <= 2 * MEMORY_SIZE ->
  exists s,
    binary_load (Some bytes) (vm_init input) = Ret s /\
    (forall fs argv path fuel,
       argv !! 1%nat = Some path -> fs path = Some bytes ->
       main fs argv input fuel = binary_exec fuel s) /\
    bin_size (binary s) = Z.of_nat (length bytes) /\
    bin_length (binary s) = Z.of_nat (length bytes) / 2 /\
    (forall i lo hi,
       bytes !! (2 * i)%nat = Some lo -> bytes !! (2 * i + 1)%nat = Some hi ->
       memory s !! i = Some (byte_val lo + 256 * byte_val hi)) /\
    (forall i lo,
       bytes !! (2 * i)%nat = Some lo -> bytes !! (2 * i + 1)%nat = None ->
       memory s !! i = Some (byte_val lo)) /\
    (forall i,
       bytes !! (2 * i)%nat = None -> Z.of_nat i < MEMORY_SIZE ->
       memory s !! i = Some 0).
Proof.
  intros Hsize.
  set (len := Z.of_nat (length bytes)).
  exists (with_binary (mk_binary len (len / 2))
            (with_memory (fread mem_init bytes) (vm_init input))).
  assert (Hload : binary_load (Some bytes) (vm_init input) =
                  Ret (with_binary (mk_binary len (len / 2))
                         (with_memory (fread mem_init bytes) (vm_init input)))).
  { unfold binary_load. change (memory (vm_init input)) with mem_init.
    rewrite wf_mem_init. fold len.
    destruct (Z.gtb_spec len (2 * MEMORY_SIZE)); [lia | reflexivity]. }
  split; [exact Hload |].
  split.
  { intros fs argv path fuel Hargv Hfile.
    unfold main, boot, binary_init. rewrite Hargv. cbn [bind].
    rewrite Hfile, Hload. reflexivity. }
  cbn [binary memory with_binary with_memory bin_size bin_length].
  split; [reflexivity |]. split; [reflexivity |].
  assert (Hin : forall i lo, bytes !! (2 * i)%nat = Some lo ->
                             (i < length mem_init)%nat).
  { intros i lo Hlo. apply lookup_lt_Some in Hlo.
    pose proof wf_mem_init as Hm. unfold wf_memory in Hm. lia. }
  split; [| split].
  - intros i lo hi Hlo Hhi. rewrite fread_lookup by eauto.
    rewrite Hlo, Hhi. reflexivity.
  - intros i lo Hlo Hhi. rewrite fread_lookup by eauto.
    rewrite Hlo, Hhi, mem_init_lookup.
    + cbn [fmap option_fmap option_map]. f_equal. rewrite Z.div_0_l; lia.
    + apply Hin in Hlo. pose proof wf_mem_init as Hm. unfold wf_memory in Hm. lia.
  - intros i Hnone Hi. rewrite fread_lookup.
    + rewrite Hnone. apply mem_init_lookup. exact Hi.
    + pose proof wf_mem_init as Hm. unfold wf_memory in Hm. lia.
Qed.

Lemma binary_load_places_words_witness :
  exists s,
    binary_load (Some odd_image) (vm_init []) = Ret s /\
    (forall fs argv path fuel,
       argv !! 1%nat = Some path -> fs path = Some odd_image ->
       main fs argv [] fuel = binary_exec fuel s) /\
    bin_size (binary s) = Z.of_nat (length odd_image) /\
    bin_length (binary s) = Z.of_nat (length odd_image) / 2 /\
    (forall i lo hi,
       odd_image !! (2 * i)%nat = Some lo -> odd_image !! (2 * i + 1)%nat = Some hi ->
       memory s !! i = Some (byte_val lo + 256 * byte_val hi)) /\
    (forall i lo,
       odd_image !! (2 * i)%nat = Some lo -> odd_image !! (2 * i + 1)%nat = None ->
       memory s !! i = Some (byte_val lo)) /\
    (forall i,
       odd_image !! (2 * i)%nat = None -> Z.of_nat i < MEMORY_SIZE ->
       memory s !! i = Some 0).
Proof.
  apply (binary_load_places_words odd_image []).
  unfold odd_image, MEMORY_SIZE; cbn [length]. lia.
Defined.

(** * Further properties of the operations *)

(** ** Registers *)

Lemma reg_read_slot (regs : list Z) (a : Z) :
  is_register a -> reg_read regs a = array_read regs (a - STORAGE_REG_LOW).
Proof.
  intros [Hlo Hhi]. unfold reg_read.
  destruct (Z.ltb_spec a STORAGE_REG_LOW); [lia | reflexivity].
Qed.

Section RegisterBank.
Variable regs : list Z.
Hypothesis regs_wf : wf_registers regs.

Lemma reg_write_register (a v : Z) :
  is_register a -> reg_write regs a v = Ret (<[reg_slot a := v]> regs).
Proof using regs_wf.
  intros [Hlo Hhi]. unfold reg_write.
  destruct (Z.ltb_spec a STORAGE_REG_LOW); [lia |].
  destruct (Z.gtb_spec a STORAGE_REG_HIGH); [lia |]. cbn [orb].
  apply array_write_inside. rewrite regs_wf.
  unfold STORAGE_REG_LOW, STORAGE_REG_HIGH, REGISTERS_SIZE in *. lia.
Qed.

(** X1. A write to a register field followed by a read of the same field
    gives back the written value, through [reg_read] and through
    [val_get]; the other registers keep their values and the bank keeps
    its size; a write to a field outside 32768..32775 changes nothing and
    ends the run through [vm_fail]. *)
Theorem reg_write_then_read (a v : Z) :
  (is_register a ->
     exists regs', reg_write regs a v = Ret regs' /\
       wf_registers regs' /\
       reg_read regs' a = Ret v /\ val_get regs' a = Ret v /\
       forall a', is_register a' -> a' <> a ->
         reg_read regs' a' = reg_read regs a') /\
  (~ is_register a -> reg_write regs a v = Fail (FunctionFailed "reg_write")).
Proof using regs_wf.
  split.
  - intros Ha. pose proof Ha as [Hlo Hhi].
    exists (<[reg_slot a := v]> regs).
    assert (Hslot : (reg_slot a < length regs)%nat).
    { unfold reg_slot, wf_registers, STORAGE_REG_LOW, STORAGE_REG_HIGH,
        REGISTERS_SIZE in *. lia. }
    assert (Hread : reg_read (<[reg_slot a := v]> regs) a = Ret v).
    { rewrite reg_read_slot by assumption. unfold array_read.
      destruct (Z.ltb_spec (a - STORAGE_REG_LOW) 0); [lia |].
      fold (reg_slot a). rewrite list_lookup_insert_eq by assumption. reflexivity. }
    split; [apply reg_write_register; assumption |].
    split; [unfold wf_registers; rewrite length_insert; exact regs_wf |].
    split; [exact Hread |].
    split.
    + unfold val_get, VALUE_MAX_LITERAL, VALUE_MAX_REGISTER.
      unfold STORAGE_REG_LOW, STORAGE_REG_HIGH in Hlo, Hhi.
      destruct (Z.leb_spec a 32767); [lia |].
      destruct (Z.leb_spec a 32775); [exact Hread | lia].
    + intros a' [Hlo' Hhi'] Hne. unfold reg_read.
      destruct (Z.ltb_spec a' STORAGE_REG_LOW); [lia |].
      unfold array_read.
      destruct (Z.ltb_spec (a' - STORAGE_REG_LOW) 0); [lia |].
      rewrite list_lookup_insert_ne; [reflexivity |].
      unfold reg_slot. lia.
  - intros Hout. unfold reg_write, is_register in *.
    destruct (Z.ltb_spec a STORAGE_REG_LOW); [reflexivity |].
    destruct (Z.gtb_spec a STORAGE_REG_HIGH); [reflexivity | lia].
Qed.
End RegisterBank.

Lemma reg_write_then_read_witness :
  exists regs', reg_write sample_registers 32770 99 = Ret regs' /\
    wf_registers regs' /\
    reg_read regs' 32770 = Ret 99 /\ val_get regs' 32770 = Ret 99 /\
    forall a', is_register a' -> a' <> 32770 ->
      reg_read regs' a' = reg_read sample_registers a'.
Proof.
  apply (reg_write_then_read sample_registers eq_refl 32770 99).
  unfold is_register, STORAGE_REG_LOW, STORAGE_REG_HIGH. lia.
Defined.

(** ** Operations that store into a register *)

Lemma wf_sample_vm : wf_registers (registers sample_vm).
Proof. reflexivity. Qed.

Lemma is_register_32768 : is_register 32768.
Proof. unfold is_register, STORAGE_REG_LOW, STORAGE_REG_HIGH. lia. Qed.

Lemma store_register (s : vm) (a v width : Z) :
  wf_registers (registers s) -> is_register a ->
  store s a v width = Ret (stored s a v width).
Proof.
  intros Hwf Ha. unfold store. rewrite reg_write_register by assumption.
  reflexivity.
Qed.

Lemma wf_stored (s : vm) (a v width : Z) :
  wf_registers (registers s) -> wf_registers (registers (stored s a v width)).
Proof.
  intros Hwf. unfold stored, wf_registers; cbn [registers with_pc with_registers].
  rewrite length_insert. exact Hwf.
Qed.

Lemma stored_lookup (s : vm) (a v width : Z) :
  wf_registers (registers s) -> is_register a ->
  registers (stored s a v width) !! reg_slot a = Some v.
Proof.
  intros Hwf [Hlo Hhi]. unfold stored; cbn [registers with_pc with_registers].
  apply list_lookup_insert_eq.
  unfold reg_slot, wf_registers, STORAGE_REG_LOW, STORAGE_REG_HIGH,
    REGISTERS_SIZE in *. lia.
Qed.

Lemma val_get_register (regs : list Z) (a v : Z) :
  wf_registers regs -> is_register a -> regs !! reg_slot a = Some v ->
  val_get regs a = Ret v.
Proof.
  intros Hwf [Hlo Hhi] Hv. unfold val_get, VALUE_MAX_LITERAL, VALUE_MAX_REGISTER.
  unfold STORAGE_REG_LOW, STORAGE_REG_HIGH in Hlo, Hhi.
  destruct (Z.leb_spec a 32767); [lia |].
  destruct (Z.leb_spec a 32775); [| lia].
  rewrite reg_read_slot by (unfold is_register, STORAGE_REG_LOW, STORAGE_REG_HIGH; lia).
  unfold array_read. destruct (Z.ltb_spec (a - STORAGE_REG_LOW) 0);
    [unfold STORAGE_REG_LOW in *; lia |].
  fold (reg_slot a). rewrite Hv. reflexivity.
Qed.

Section StoringOperations.
Variable s : vm.
Hypothesis regs_wf : wf_registers (registers s).
Variable a : Z.
Hypothesis a_register : is_register a.

(** X2. With a source field that is a literal or a register (at most
    32775), [set] behaves as if it resolved the source with [val_get]: the
    destination register receives the resolved value, the program counter
    moves three words on and nothing else changes. *)
Theorem set_stores_resolved_value (b c : Z) :
  b <= VALUE_MAX_REGISTER ->
  exists v, val_get (registers s) b = Ret v /\
            operation_exec s 1 a b c = Ret (stored s a v 3).
Proof using regs_wf a_register.
  intros Hb.
  assert (Hres : exists v, val_get (registers s) b = Ret v).
  { unfold val_get. destruct (Z.leb_spec b VALUE_MAX_LITERAL); [eauto |].
    destruct (Z.leb_spec b VALUE_MAX_REGISTER); [| lia].
    destruct (reg_read_register (registers s) regs_wf b) as (v & _ & Hv); [| eauto].
    unfold VALUE_MAX_LITERAL, VALUE_MAX_REGISTER, STORAGE_REG_LOW,
      STORAGE_REG_HIGH in *. lia. }
  destruct Hres as [v Hv]. exists v. split; [exact Hv |].
  cbv beta iota zeta delta [operation_exec].
  rewrite reg_read_is_val_get by assumption. rewrite Hv. cbn [bind].
  apply store_register; assumption.
Qed.

(** X3. With a divisor that is not zero, [mod] stores the remainder of
    the division, a value below the divisor and not above the dividend,
    and moves the program counter four words on. *)
Theorem mod_stores_remainder (b c x y : Z) :
  val_get (registers s) b = Ret x ->
  val_get (registers s) c = Ret y ->
  0 <= x -> 0 < y ->
  operation_exec s 11 a b c = Ret (stored s a (x mod y) 4) /\
  0 <= x mod y < y /\ x mod y <= x.
Proof using regs_wf a_register.
  intros Hb Hc Hx Hy. split.
  - rewrite (mod_nonzero s a b c x y Hb Hc Hx Hy).
    apply store_register; assumption.
  - split; [apply Z.mod_pos_bound; lia | apply Z.mod_le; lia].
Qed.

(** X4. [add] stores the sum modulo 32768.  [mult] stores the product
    modulo 32768 as long as the product fits an [int], which it does for
    all 15-bit operands; a product beyond [INT_MAX] (both operands above
    46340) is a signed overflow, for which there is no check. *)
Theorem add_mult_modulo (b c x y : Z) :
  val_get (registers s) b = Ret x ->
  val_get (registers s) c = Ret y ->
  operation_exec s 9 a b c = Ret (stored s a ((x + y) mod 32768) 4) /\
  (x * y <= INT_MAX ->
     operation_exec s 10 a b c = Ret (stored s a ((x * y) mod 32768) 4)) /\
  (word15 x -> word15 y -> x * y <= INT_MAX) /\
  (INT_MAX < x * y -> operation_exec s 10 a b c = Undef SignedOverflow).
Proof using regs_wf a_register.
  intros Hb Hc.
  split; [| split; [| split]].
  - cbv beta iota zeta delta [operation_exec]. rewrite Hb, Hc. cbn [bind].
    apply store_register; assumption.
  - intros Hfit. cbv beta iota zeta delta [operation_exec].
    rewrite Hb, Hc. cbn [bind]. unfold int_mul.
    destruct (Z.gtb_spec (x * y) INT_MAX); [lia |]. cbn [bind].
    apply store_register; assumption.
  - unfold word15, INT_MAX. intros Hx Hy. nia.
  - intros Hover. cbv beta iota zeta delta [operation_exec].
    rewrite Hb, Hc. cbn [bind]. unfold int_mul.
    destruct (Z.gtb_spec (x * y) INT_MAX); [reflexivity | lia].
Qed.
End StoringOperations.

Lemma set_stores_resolved_value_witness :
  exists v, val_get (registers sample_vm) 32771 = Ret v /\
            operation_exec sample_vm 1 32768 32771 0 = Ret (stored sample_vm 32768 v 3).
Proof.
  apply (set_stores_resolved_value sample_vm wf_sample_vm 32768 is_register_32768).
  unfold VALUE_MAX_REGISTER. lia.
Defined.

Lemma mod_stores_remainder_witness :
  operation_exec sample_vm 11 32768 32775 4 = Ret (stored sample_vm 32768 (17 mod 4) 4) /\
  0 <= 17 mod 4 < 4 /\ 17 mod 4 <= 17.
Proof.
  apply (mod_stores_remainder sample_vm wf_sample_vm 32768 is_register_32768
           32775 4 17 4); try reflexivity; lia.
Defined.

Lemma add_mult_modulo_witness :
  operation_exec sample_vm 9 32768 32767 32775 =
    Ret (stored sample_vm 32768 ((32767 + 17) mod 32768) 4) /\
  (32767 * 17 <= INT_MAX ->
     operation_exec sample_vm 10 32768 32767 32775 =
       Ret (stored sample_vm 32768 ((32767 * 17) mod 32768) 4)) /\
  (word15 32767 -> word15 17 -> 32767 * 17 <= INT_MAX) /\
  (INT_MAX < 32767 * 17 ->
     operation_exec sample_vm 10 32768 32767 32775 = Undef SignedOverflow).
Proof.
  apply (add_mult_modulo sample_vm wf_sample_vm 32768 is_register_32768
           32767 32775 32767 17); reflexivity.
Defined.

(** ** Bitwise operations and 15-bit values *)

Lemma lnot_low15 (x : Z) : word15 x -> Z.land (Z.lnot x) 32767 = 32767 - x.
Proof.
  unfold word15. intros Hx. change 32767 with (Z.ones 15) at 1.
  rewrite Z.land_ones by lia. unfold Z.lnot.
  replace (Z.pred (- x)) with (32767 - x + (-1) * 2 ^ 15) by lia.
  rewrite Z_mod_plus_full. apply Z.mod_small. lia.
Qed.












Section NotTwice.
Variable s : vm.
Hypothesis regs_wf : wf_registers (registers s).
Variable a : Z.
Hypothesis a_register : is_register a.

(** X5. On a 15-bit value [not] is the complement to 32767 and is its own
    inverse: [not a b] stores [32767 - val(b)], and [not a a] executed
    next leaves [val(b)] in register [a]. *)
Theorem not_is_an_involution (b c c' x : Z) :
  val_get (registers s) b = Ret x -> word15 x ->
  operation_exec s 14 a b c = Ret (stored s a (32767 - x) 3) /\
  operation_exec (stored s a (32767 - x) 3) 14 a a c'
    = Ret (stored (stored s a (32767 - x) 3) a x 3) /\
  val_get (registers (stored (stored s a (32767 - x) 3) a x 3)) a = Ret x.
Proof using regs_wf a_register.
  intros Hb Hx.
  assert (Hwf1 : wf_registers (registers (stored s a (32767 - x) 3)))
    by (apply wf_stored; exact regs_wf).
  split; [| split].
  - cbv beta iota zeta delta [operation_exec]. rewrite Hb. cbn [bind].
    rewrite lnot_low15 by assumption. apply store_register; assumption.
  - cbv beta iota zeta delta [operation_exec].
    rewrite (val_get_register _ a (32767 - x)); try assumption;
      [| apply stored_lookup; assumption].
    cbn [bind]. rewrite lnot_low15 by (unfold word15 in *; lia).
    replace (32767 - (32767 - x)) with x by lia.
    apply store_register; assumption.
  - apply val_get_register; try assumption; [apply wf_stored; assumption |].
    apply stored_lookup; assumption.
Qed.
End NotTwice.

Lemma not_is_an_involution_witness :
  operation_exec sample_vm 14 32768 32775 0 = Ret (stored sample_vm 32768 (32767 - 17) 3) /\
  operation_exec (stored sample_vm 32768 (32767 - 17) 3) 14 32768 32768 0
    = Ret (stored (stored sample_vm 32768 (32767 - 17) 3) 32768 17 3) /\
  val_get (registers (stored (stored sample_vm 32768 (32767 - 17) 3) 32768 17 3)) 32768
    = Ret 17.
Proof.
  apply (not_is_an_involution sample_vm wf_sample_vm 32768 is_register_32768
           32775 0 0 17); [reflexivity | unfold word15; lia].
Defined.

(** ** What an operation leaves alone *)

(** X10. What an operation that returns never touches: no operation
    changes [binary]; only wmem changes memory; only push, pop, call and
    ret change the stack; push, jmp, jt, jf, wmem, call, ret, out and noop
    leave every register as it was; only in consumes input and only out
    writes output. *)
Theorem operation_frame (s s' : vm) (opcode a b c : Z) :
  operation_exec s opcode a b c = Ret s' ->
  binary s' = binary s /\
  (opcode <> 16 -> memory s' = memory s) /\
  (~ uses_stack opcode -> stack s' = stack s) /\
  (keeps_registers opcode -> registers s' = registers s) /\
  (opcode <> 20 -> stdin s' = stdin s) /\
  (opcode <> 19 -> stdout s' = stdout s).
Proof.
  intros H. exec_cases opcode H opcode_cases opcode_enum.
  all: unfold uses_stack, keeps_registers; cbn [In]; state_simpl.
  all: repeat split; try reflexivity; intros; try (exfalso; lia); tauto.
Qed.

Lemma operation_frame_witness :
  binary (with_pc 77 sample_vm) = binary sample_vm /\
  (6 <> 16 -> memory (with_pc 77 sample_vm) = memory sample_vm) /\
  (~ uses_stack 6 -> stack (with_pc 77 sample_vm) = stack sample_vm) /\
  (keeps_registers 6 -> registers (with_pc 77 sample_vm) = registers sample_vm) /\
  (6 <> 20 -> stdin (with_pc 77 sample_vm) = stdin sample_vm) /\
  (6 <> 19 -> stdout (with_pc 77 sample_vm) = stdout sample_vm).
Proof.
  apply (operation_frame sample_vm (with_pc 77 sample_vm) 6 77 0 0).
  reflexivity.
Defined.

(** X19. An operation that does not redirect the program counter moves it
    by the width of its instruction: 3 words for set, not, rmem and wmem,
    2 for push, pop, out and in, 4 for eq, gt, add, mult, mod, and and or,
    1 for noop. *)
Theorem pc_advances_by_width (s s' : vm) (opcode a b c w : Z) :
  operation_exec s opcode a b c = Ret s' ->
  instr_width opcode = Some w ->
  pc s' = pc s + w.
Proof.
  intros H Hw. exec_cases opcode H opcode_cases opcode_enum.
  all: cbv in Hw; try discriminate Hw; injection Hw as <-; reflexivity.
Qed.

Lemma pc_advances_by_width_witness :
  pc (stored sample_vm 32768 ((32767 + 17) mod 32768) 4) = pc sample_vm + 4.
Proof.
  apply (pc_advances_by_width sample_vm _ 9 32768 32767 32775 4); reflexivity.
Defined.

(** ** Input and output *)

Lemma operation_io (s s' : vm) (opcode a b c : Z) :
  operation_exec s opcode a b c = Ret s' ->
  (stdout s' = stdout s \/
   exists ch, 0 <= ch < 256 /\ stdout s' = stdout s ++ [ch]) /\
  (stdin s' = stdin s \/ exists byte, stdin s = byte :: stdin s').
Proof.
  intros H. exec_cases opcode H opcode_cases opcode_enum.
  all: state_simpl; try (split; left; reflexivity).
  - split; [right | left; reflexivity]. unfold putchar.
    eexists. split; [| reflexivity]. apply Z.mod_pos_bound. lia.
  - split; [left; reflexivity |].
    destruct (stdin s) as [| byte rest]; cbn [getchar snd]; eauto.
Qed.

Lemma cycle_io (s s' : vm) :
  cycle s = Ret s' ->
  (stdout s' = stdout s \/
   exists ch, 0 <= ch < 256 /\ stdout s' = stdout s ++ [ch]) /\
  (stdin s' = stdin s \/ exists byte, stdin s = byte :: stdin s').
Proof.
  intros H. apply cycle_Ret in H as (opcode & a & b & c & _ & Ho & _).
  exact (operation_io _ _ _ _ _ _ Ho).
Qed.

(** X11. Output is only ever appended to and input is only ever consumed
    from the front: a machine still running after [fuel] turns has written
    at most [fuel] further characters, each in 0..255, after what was
    written before, and has taken at most [fuel] bytes from the front of
    the input. *)
Theorem run_io (fuel : nat) :
  forall s s', run fuel s = Ret s' ->
    exists written consumed,
      stdout s' = stdout s ++ written /\
      stdin s = consumed ++ stdin s' /\
      (length written <= fuel)%nat /\ (length consumed <= fuel)%nat /\
      Forall (fun ch => 0 <= ch < 256) written.
Proof.
  induction fuel as [| fuel IH]; intros s s' H; cbn [run] in H.
  - injection H as <-. exists [], []. rewrite app_nil_r.
    repeat split; auto.
  - destruct (cycle s) as [s1 | | |] eqn:Ec; cbn [bind] in H; try discriminate H.
    destruct (IH _ _ H) as (w & r & Hout & Hin & Hlw & Hlr & Hch).
    destruct (cycle_io _ _ Ec) as [Ho Hi].
    assert (Hw : exists w1, stdout s1 = stdout s ++ w1 /\ (length w1 <= 1)%nat
                            /\ Forall (fun ch => 0 <= ch < 256) w1).
    { destruct Ho as [-> | (ch & Hch1 & ->)].
      - exists []. rewrite app_nil_r. repeat split; auto.
      - exists [ch]. repeat split; auto. }
    assert (Hr : exists r1, stdin s = r1 ++ stdin s1 /\ (length r1 <= 1)%nat).
    { destruct Hi as [-> | (byte & ->)].
      - exists []. split; auto.
      - exists [byte]. split; auto. }
    destruct Hw as (w1 & Hw1 & Hlw1 & Hch1). destruct Hr as (r1 & Hr1 & Hlr1).
    exists (w1 ++ w), (r1 ++ r).
    rewrite Hout, Hw1, Hr1, Hin, !length_app, <- !app_assoc.
    repeat split; try lia. apply Forall_app; auto.
Qed.

Lemma run_io_witness :
  exists written consumed,
    stdout in_eof_after = stdout in_eof_loaded ++ written /\
    stdin in_eof_loaded = consumed ++ stdin in_eof_after /\
    (length written <= 1)%nat /\ (length consumed <= 1)%nat /\
    Forall (fun ch => 0 <= ch < 256) written.
Proof.
  apply (run_io 1 in_eof_loaded in_eof_after).
  vm_cast_no_check (@eq_refl (outcome vm) (Ret in_eof_after)).
Defined.

(** ** Conditional jumps *)

(** X7. [jt] and [jf] are complementary and resolve the target only when
    they jump: on the same operands exactly one of them takes the jump to
    [val(b)] and the other moves three words on; the one that does not
    jump never resolves [b], so that an invalid target field goes
    unnoticed, while the one that jumps faults on it in [val_get]. *)
Theorem jt_jf_complementary (s : vm) (a b c x : Z) :
  val_get (registers s) a = Ret x ->
  (x <> 0 ->
     operation_exec s 7 a b c = (t <- val_get (registers s) b ;; Ret (with_pc t s)) /\
     operation_exec s 8 a b c = Ret (with_pc (pc s + 3) s)) /\
  (x = 0 ->
     operation_exec s 8 a b c = (t <- val_get (registers s) b ;; Ret (with_pc t s)) /\
     operation_exec s 7 a b c = Ret (with_pc (pc s + 3) s)) /\
  (VALUE_MAX_REGISTER < b ->
     (x <> 0 -> operation_exec s 7 a b c = Fail (FunctionFailed "val_get")) /\
     (x = 0 -> operation_exec s 8 a b c = Fail (FunctionFailed "val_get"))).
Proof.
  intros Ha.
  assert (Hinv : VALUE_MAX_REGISTER < b ->
                 val_get (registers s) b = Fail (FunctionFailed "val_get")).
  { intros Hb. unfold val_get, VALUE_MAX_LITERAL, VALUE_MAX_REGISTER in *.
    destruct (Z.leb_spec b 32767); [lia |].
    destruct (Z.leb_spec b 32775); [lia | reflexivity]. }
  cbv beta iota zeta delta [operation_exec]. rewrite Ha. cbn [bind].
  destruct (Z.eqb_spec x 0) as [Hz | Hnz]; cbn [negb].
  - split; [intros; contradiction |]. split; [auto |].
    intros Hb. split; [intros; contradiction |].
    intros _. rewrite (Hinv Hb). reflexivity.
  - split; [auto |]. split; [intros; contradiction |].
    intros Hb. split; [| intros; contradiction].
    intros _. rewrite (Hinv Hb). reflexivity.
Qed.

Lemma jt_jf_complementary_witness :
  (0 <> 0 ->
     operation_exec sample_vm 7 0 40000 0
       = (t <- val_get (registers sample_vm) 40000 ;; Ret (with_pc t sample_vm)) /\
     operation_exec sample_vm 8 0 40000 0 = Ret (with_pc (pc sample_vm + 3) sample_vm)) /\
  (0 = 0 ->
     operation_exec sample_vm 8 0 40000 0
       = (t <- val_get (registers sample_vm) 40000 ;; Ret (with_pc t sample_vm)) /\
     operation_exec sample_vm 7 0 40000 0 = Ret (with_pc (pc sample_vm + 3) sample_vm)) /\
  (VALUE_MAX_REGISTER < 40000 ->
     (0 <> 0 -> operation_exec sample_vm 7 0 40000 0 = Fail (FunctionFailed "val_get")) /\
     (0 = 0 -> operation_exec sample_vm 8 0 40000 0 = Fail (FunctionFailed "val_get"))).
Proof.
  apply (jt_jf_complementary sample_vm 0 40000 0 0). reflexivity.
Defined.

(** ** push and pop, wmem and rmem *)

Section StackOperations.
Variable s : vm.
Hypothesis regs_wf : wf_registers (registers s).
Hypothesis stack_wf : Z.of_nat (length (contents (stack s))) = STACK_SIZE.

(** X8. A [push a] followed by a [pop r] moves the resolved value of [a]
    into register [r]: the stack is back at its previous position with its
    previous words, memory is untouched and the program counter is four
    words on. *)
Theorem push_then_pop_opcodes (a b c r b' c' v : Z) :
  -1 <= position (stack s) < STACK_SIZE - 1 ->
  val_get (registers s) a = Ret v ->
  is_register r ->
  exists s1,
    operation_exec s 2 a b c = Ret s1 /\
    stack_view (stack s1) = stack_view (stack s) ++ [v] /\
    exists s2,
      operation_exec s1 3 r b' c' = Ret s2 /\
      registers s2 = <[reg_slot r := v]> (registers s) /\
      position (stack s2) = position (stack s) /\
      stack_view (stack s2) = stack_view (stack s) /\
      memory s2 = memory s /\ pc s2 = pc s + 4.
Proof using regs_wf stack_wf.
  intros Hpos Ha Hr.
  destruct (stack_push_then_pop (stack s) stack_wf v Hpos)
    as (st1 & Epush & Hview1 & st2 & Epop & Hpos2 & Hview2).
  exists (with_pc (pc s + 2) (with_stack st1 s)).
  cbv beta iota zeta delta [operation_exec]. rewrite Ha. cbn [bind].
  rewrite Epush. cbn [bind].
  split; [reflexivity |]. split; [exact Hview1 |].
  cbn [stack with_pc with_stack]. rewrite Epop. cbn [bind fst snd].
  eexists. split.
  - apply store_register; [exact regs_wf | exact Hr].
  - unfold stored; cbn [registers stack memory pc with_pc with_stack with_registers].
    repeat split; try assumption; lia.
Qed.
End StackOperations.

Lemma push_then_pop_opcodes_witness :
  exists s1,
    operation_exec sample_vm 2 32775 0 0 = Ret s1 /\
    stack_view (stack s1) = stack_view (stack sample_vm) ++ [17] /\
    exists s2,
      operation_exec s1 3 32768 0 0 = Ret s2 /\
      registers s2 = <[reg_slot 32768 := 17]> (registers sample_vm) /\
      position (stack s2) = position (stack sample_vm) /\
      stack_view (stack s2) = stack_view (stack sample_vm) /\
      memory s2 = memory sample_vm /\ pc s2 = pc sample_vm + 4.
Proof.
  apply (push_then_pop_opcodes sample_vm wf_sample_vm (proj1 wf_stack_init)).
  - unfold sample_vm, stack_init, STACK_SIZE; cbn [stack position]. lia.
  - reflexivity.
  - exact is_register_32768.
Defined.

Section MemoryOperations.
Variable s : vm.
Hypothesis regs_wf : wf_registers (registers s).
Hypothesis mem_wf : wf_memory (memory s).

(** X9. A [wmem a b] to an address inside the array followed by an
    [rmem r a] brings the written value into register [r]; the write
    leaves the registers and every other address as they were. *)
Theorem wmem_then_rmem (a b c r c' x v : Z) :
  val_get (registers s) a = Ret x ->
  0 <= x < MEMORY_SIZE ->
  val_get (registers s) b = Ret v ->
  is_register r ->
  exists s1,
    operation_exec s 16 a b c = Ret s1 /\
    registers s1 = registers s /\ pc s1 = pc s + 3 /\
    mem_read (memory s1) x = Ret v /\
    (forall y, y <> x -> mem_read (memory s1) y = mem_read (memory s) y) /\
    operation_exec s1 15 r a c' = Ret (stored s1 r v 3).
Proof using regs_wf mem_wf.
  intros Ha Hx Hb Hr.
  assert (Hin : 0 <= x < Z.of_nat (length (memory s))) by (rewrite mem_wf; exact Hx).
  exists (with_pc (pc s + 3) (with_memory (<[Z.to_nat x := v]> (memory s)) s)).
  assert (Hread : mem_read (<[Z.to_nat x := v]> (memory s)) x = Ret v).
  { unfold mem_read, array_read. destruct (Z.ltb_spec x 0); [lia |].
    rewrite list_lookup_insert_eq by lia. reflexivity. }
  split.
  { cbv beta iota zeta delta [operation_exec]. rewrite Ha, Hb. cbn [bind].
    unfold mem_write. rewrite array_write_inside by exact Hin. reflexivity. }
  cbn [registers memory pc with_pc with_memory].
  split; [reflexivity |]. split; [reflexivity |]. split; [exact Hread |].
  split.
  - intros y Hy. unfold mem_read, array_read.
    destruct (Z.ltb_spec y 0); [reflexivity |].
    rewrite list_lookup_insert_ne by lia. reflexivity.
  - cbv beta iota zeta delta [operation_exec].
    cbn [registers memory with_pc with_memory]. rewrite Ha. cbn [bind].
    rewrite Hread. cbn [bind]. apply store_register; assumption.
Qed.
End MemoryOperations.

Lemma wmem_then_rmem_witness :
  exists s1,
    operation_exec sample_vm 16 32766 32775 0 = Ret s1 /\
    registers s1 = registers sample_vm /\ pc s1 = pc sample_vm + 3 /\
    mem_read (memory s1) 32766 = Ret 17 /\
    (forall y, y <> 32766 -> mem_read (memory s1) y = mem_read (memory sample_vm) y) /\
    operation_exec s1 15 32768 32766 0 = Ret (stored s1 32768 17 3).
Proof.
  apply (wmem_then_rmem sample_vm wf_sample_vm wf_mem_init).
  - reflexivity.
  - unfold MEMORY_SIZE. lia.
  - reflexivity.
  - exact is_register_32768.
Defined.

(** ** Invariants of a run *)





(** ** Starting up *)



(** X14. An image whose first word is zero, the empty file and a file of
    a single zero byte among them, makes the run halt at its first turn,
    whatever follows the first word, whatever the input and however many
    turns were granted. *)
Theorem zero_first_word_halts (fs : string -> option (list Byte.byte))
    (argv : list string) (path : string) (bytes input : list Byte.byte)
    (fuel : nat) :
  argv !! 1%nat = Some path -> fs path = Some bytes ->
  Z.of_nat (length bytes) <= 65534 ->
  (forall lo, bytes !! 0%nat = Some lo -> lo = Byte.x00) ->
  (forall hi, bytes !! 1%nat = Some hi -> hi = Byte.x00) ->
  main fs argv input (S fuel) = Halt.
Proof.
  intros Hargv Hfile Hsize Hlo Hhi.
  unfold main, boot, binary_init. rewrite Hargv. cbn [bind]. rewrite Hfile.
  unfold binary_load. change (memory (vm_init input)) with mem_init.
  pose proof wf_mem_init as Hm. unfold wf_memory, MEMORY_SIZE in Hm. rewrite Hm.
  destruct (Z.gtb_spec (Z.of_nat (length bytes)) (2 * 32767)); [lia |].
  cbn [bind]. unfold binary_exec. cbn [run].
  set (m := fread mem_init bytes).
  assert (Hlen : Z.of_nat (length m) = 32767)
    by (subst m; rewrite fread_length; exact Hm).
  assert (H0 : array_read m 0 = Ret 0).
  { unfold array_read. change (0 <? 0) with false. cbv iota.
    change (Z.to_nat 0) with 0%nat. subst m. rewrite fread_lookup by lia.
    change (2 * 0)%nat with 0%nat. change (0 + 1)%nat with 1%nat.
    destruct (bytes !! 0%nat) as [lo |] eqn:E0.
    - rewrite (Hlo lo eq_refl).
      destruct (bytes !! 1%nat) as [hi |] eqn:E1.
      + rewrite (Hhi hi eq_refl). reflexivity.
      + rewrite mem_init_lookup by (unfold MEMORY_SIZE; lia). reflexivity.
    - rewrite mem_init_lookup by (unfold MEMORY_SIZE; lia). reflexivity. }
  destruct (array_read_inside m 1 ltac:(lia)) as (a & _ & Ha).
  destruct (array_read_inside m 2 ltac:(lia)) as (b & _ & Hb).
  destruct (array_read_inside m 3 ltac:(lia)) as (c & _ & Hc).
  unfold cycle, fetch.
  cbn [memory pc with_pc with_binary with_memory].
  change (0 + 1) with 1. change (0 + 2) with 2. change (0 + 3) with 3.
  rewrite H0, Ha, Hb, Hc. reflexivity.
Qed.

Lemma zero_first_word_halts_witness :
  main (one_file [Byte.x00]) command_line [Byte.x41] 3 = Halt.
Proof.
  apply (zero_first_word_halts (one_file [Byte.x00]) command_line "image.bin"
           [Byte.x00] [Byte.x41] 2); try reflexivity.
  - cbn [length]. lia.
  - intros lo [= <-]. reflexivity.
  - intros hi H. discriminate H.
Defined.

(** ** The faults of an operation *)

Lemma array_read_Fail (arr : list Z) (i : Z) (f : fault) :
  array_read arr i = Fail f -> False.
Proof.
  unfold array_read. destruct (i <? 0); [discriminate |].
  destruct (arr !! Z.to_nat i); discriminate.
Qed.

Lemma array_write_Fail (arr : list Z) (i v : Z) (f : fault) :
  array_write arr i v = Fail f -> False.
Proof.
  unfold array_write. destruct (i <? 0); [discriminate |].
  destruct (i <? Z.of_nat (length arr)); discriminate.
Qed.

Lemma reg_read_Fail (regs : list Z) (x : Z) (f : fault) :
  reg_read regs x = Fail f -> False.
Proof.
  unfold reg_read. destruct (x <? STORAGE_REG_LOW); [discriminate |].
  apply array_read_Fail.
Qed.

Lemma val_get_Fail (regs : list Z) (x : Z) (f : fault) :
  val_get regs x = Fail f -> f = FunctionFailed "val_get".
Proof.
  unfold val_get. destruct (x <=? VALUE_MAX_LITERAL); [discriminate |].
  destruct (x <=? VALUE_MAX_REGISTER).
  - intros H. destruct (reg_read_Fail _ _ _ H).
  - intros [= <-]. reflexivity.
Qed.

Lemma reg_write_Fail (regs : list Z) (x v : Z) (f : fault) :
  reg_write regs x v = Fail f -> f = FunctionFailed "reg_write".
Proof.
  unfold reg_write.
  destruct ((x <? STORAGE_REG_LOW) || (x >? STORAGE_REG_HIGH)).
  - intros [= <-]. reflexivity.
  - intros H. destruct (array_write_Fail _ _ _ _ H).
Qed.

Lemma stack_push_Fail (st : stack_t) (v : Z) (f : fault) :
  stack_push st v = Fail f -> f = FunctionFailed "stack_push".
Proof.
  unfold stack_push. destruct (stack_is_full st); [intros [= <-]; reflexivity |].
  destruct (array_write (contents st) (position st + 1) v) eqn:E;
    cbn [bind]; try discriminate.
  intros [= <-]. destruct (array_write_Fail _ _ _ _ E).
Qed.

Lemma stack_pop_Fail (st : stack_t) (f : fault) :
  stack_pop st = Fail f -> f = FunctionFailed "stack_pop".
Proof.
  unfold stack_pop. destruct (stack_is_empty st); [intros [= <-]; reflexivity |].
  destruct (array_read (contents st) (position st)) eqn:E;
    cbn [bind]; try discriminate.
  intros [= <-]. destruct (array_read_Fail _ _ _ E).
Qed.

Lemma int_mul_Fail (x y : Z) (f : fault) : int_mul x y = Fail f -> False.
Proof. unfold int_mul. destruct (x * y >? INT_MAX); discriminate. Qed.

Lemma int_rem_Fail (x y : Z) (f : fault) : int_rem x y = Fail f -> False.
Proof. unfold int_rem. destruct (y =? 0); discriminate. Qed.

(** X15. The faults of an operation: an opcode outside 0..21 always ends
    the run with the unknown-opcode fault, which carries the opcode and the
    program counter; an opcode in 0..21 never does, and when it ends the
    run with a fault the fault comes from one of [val_get], [reg_write],
    [stack_pop] and [stack_push]. *)
Theorem operation_fault_origin (s : vm) (opcode a b c : Z) :
  (~ 0 <= opcode <= 21 ->
     operation_exec s opcode a b c = Fail (UnknownOpcode opcode (pc s))) /\
  (forall f, operation_exec s opcode a b c = Fail f ->
     0 <= opcode <= 21 ->
     exists fn, f = FunctionFailed fn /\ In fn failing_functions).
Proof.
  split.
  - intros Hout. destruct (opcode_cases opcode) as [Hin | Hdef]; [lia | apply Hdef].
  - intros f H Hin. apply opcode_enum in Hin.
    repeat (destruct Hin as [-> | Hin]); [.. | subst opcode];
      cbv beta iota zeta delta [operation_exec] in H; unfold store in H;
      try discriminate H; peel_fault H; subst;
      repeat match goal with
        | E : array_read _ _ = Fail _ |- _ => destruct (array_read_Fail _ _ _ E)
        | E : reg_read _ _ = Fail _ |- _ => destruct (reg_read_Fail _ _ _ E)
        | E : mem_read _ _ = Fail _ |- _ => destruct (array_read_Fail _ _ _ E)
        | E : mem_write _ _ _ = Fail _ |- _ => destruct (array_write_Fail _ _ _ _ E)
        | E : int_mul _ _ = Fail _ |- _ => destruct (int_mul_Fail _ _ _ E)
        | E : int_rem _ _ = Fail _ |- _ => destruct (int_rem_Fail _ _ _ E)
        | E : val_get _ _ = Fail _ |- _ => apply val_get_Fail in E; subst
        | E : reg_write _ _ _ = Fail _ |- _ => apply reg_write_Fail in E; subst
        | E : stack_push _ _ = Fail _ |- _ => apply stack_push_Fail in E; subst
        | E : stack_pop _ = Fail _ |- _ => apply stack_pop_Fail in E; subst
        end;
      (eexists; split; [reflexivity | unfold failing_functions; cbn [In]; tauto]).
Qed.

Lemma operation_fault_origin_witness :
  exists fn, FunctionFailed "stack_pop" = FunctionFailed fn /\ In fn failing_functions.
Proof.
  apply (proj2 (operation_fault_origin sample_vm 18 0 0 0)
           (FunctionFailed "stack_pop")).
  - reflexivity.
  - lia.
Defined.

(** ** Sequences of pushes and pops *)

Lemma stack_view_length (st : stack_t) :
  Z.of_nat (length (contents st)) = STACK_SIZE ->
  -1 <= position st < STACK_SIZE ->
  length (stack_view st) = Z.to_nat (position st + 1).
Proof.
  intros Hl Hp. unfold stack_view. rewrite length_take. lia.
Qed.

Lemma push_all_Ret (values : list Z) :
  forall st,
    Z.of_nat (length (contents st)) = STACK_SIZE ->
    -1 <= position st ->
    position st + Z.of_nat (length values) <= STACK_SIZE - 1 ->
    exists st', push_all st values = Ret st' /\
      position st' = position st + Z.of_nat (length values) /\
      Z.of_nat (length (contents st')) = STACK_SIZE /\
      stack_view st' = stack_view st ++ values.
Proof.
  induction values as [| v rest IH]; intros st Hl Hp Hfit; cbn [push_all length].
  - exists st. rewrite app_nil_r. repeat split; [lia | exact Hl].
  - cbn [length] in Hfit.
    rewrite (stack_push_Ret st Hl v) by lia. cbn [bind].
    set (st1 := mk_stack (position st + 1)
                  (<[Z.to_nat (position st + 1) := v]> (contents st))).
    destruct (IH st1) as (st' & Hpush & Hpos & Hlen & Hview).
    + subst st1; cbn [contents]. rewrite length_insert. exact Hl.
    + subst st1; cbn [position]. lia.
    + subst st1; cbn [position]. lia.
    + exists st'. split; [exact Hpush |].
      split; [rewrite Hpos; subst st1; cbn [position]; lia |].
      split; [exact Hlen |].
      rewrite Hview. subst st1. rewrite (stack_view_push st Hl v) by lia.
      rewrite <- app_assoc. reflexivity.
Qed.

Lemma push_all_overflow (values : list Z) :
  forall st,
    Z.of_nat (length (contents st)) = STACK_SIZE ->
    -1 <= position st <= STACK_SIZE - 1 ->
    STACK_SIZE - 1 < position st + Z.of_nat (length values) ->
    push_all st values = Fail (FunctionFailed "stack_push").
Proof.
  induction values as [| v rest IH]; intros st Hl Hp Hover; cbn [push_all length] in *.
  - lia.
  - destruct (Z.eq_dec (position st) (STACK_SIZE - 1)) as [Hfull | Hfree].
    + unfold stack_push, stack_is_full.
      destruct (Z.geb_spec (position st) (STACK_SIZE - 1)); [reflexivity | lia].
    + rewrite (stack_push_Ret st Hl v) by lia. cbn [bind].
      apply IH; cbn [contents position].
      * rewrite length_insert. exact Hl.
      * lia.
      * lia.
Qed.

Lemma pop_n_Ret (n : nat) :
  forall st,
    Z.of_nat (length (contents st)) = STACK_SIZE ->
    -1 <= position st < STACK_SIZE ->
    Z.of_nat n <= position st + 1 ->
    pop_n n st =
      Ret (reverse (drop (Z.to_nat (position st + 1) - n) (stack_view st)),
           mk_stack (position st - Z.of_nat n) (contents st)).
Proof.
  induction n as [| k IH]; intros st Hl Hp Hn; cbn [pop_n].
  - rewrite Nat.sub_0_r, drop_ge by (rewrite stack_view_length; auto; lia).
    destruct st as [p c]; cbn [position contents].
    replace (p - Z.of_nat 0) with p by lia. reflexivity.
  - destruct (array_read_inside (contents st) (position st)) as (v & Hv & Hr); [lia |].
    unfold stack_pop, stack_is_empty.
    destruct (Z.ltb_spec (position st) 0); [lia |].
    rewrite Hr. cbn [bind fst snd].
    rewrite IH; cbn [position contents]; [| exact Hl | lia | lia].
    cbn [bind fst snd]. f_equal. f_equal; [| f_equal; lia].
    unfold stack_view; cbn [position contents].
    replace (position st - 1 + 1) with (position st) by lia.
    replace (Z.to_nat (position st + 1)) with (S (Z.to_nat (position st))) by lia.
    rewrite (take_S_r _ _ v Hv).
    replace (S (Z.to_nat (position st)) - S k)%nat
      with (Z.to_nat (position st) - k)%nat by lia.
    rewrite drop_app_le by (rewrite length_take; lia).
    rewrite reverse_snoc. reflexivity.
Qed.

(** X16. The call stack is last-in first-out for whole sequences: pushing
    a sequence of values that fits puts them on top in order, and popping
    as many values then returns them in reverse order and leaves the
    position and the words of the stack as before the pushes; a sequence
    that does not fit ends the run in [stack_push]. *)
Theorem stack_lifo_sequence (st : stack_t) (values : list Z) :
  Z.of_nat (length (contents st)) = STACK_SIZE ->
  -1 <= position st <= STACK_SIZE - 1 ->
  (position st + Z.of_nat (length values) <= STACK_SIZE - 1 ->
     exists st', push_all st values = Ret st' /\
       stack_view st' = stack_view st ++ values /\
       exists st'', pop_n (length values) st' = Ret (reverse values, st'') /\
         position st'' = position st /\
         stack_view st'' = stack_view st) /\
  (STACK_SIZE - 1 < position st + Z.of_nat (length values) ->
     push_all st values = Fail (FunctionFailed "stack_push")).
Proof.
  intros Hl Hp. split; [| apply push_all_overflow; assumption].
  intros Hfit.
  destruct (push_all_Ret values st Hl ltac:(lia) Hfit)
    as (st' & Hpush & Hpos & Hlen & Hview).
  exists st'. split; [exact Hpush |]. split; [exact Hview |].
  exists (mk_stack (position st' - Z.of_nat (length values)) (contents st')).
  assert (Hlv : length (stack_view st) = Z.to_nat (position st + 1)).
  { apply stack_view_length; [exact Hl | unfold STACK_SIZE in *; lia]. }
  rewrite pop_n_Ret; [| exact Hlen | unfold STACK_SIZE in *; lia | lia].
  cbn [position contents].
  replace (Z.to_nat (position st' + 1) - length values)%nat
    with (length (stack_view st)) by lia.
  rewrite Hview, drop_app_length.
  split; [reflexivity |]. split; [lia |].
  unfold stack_view at 1; cbn [position contents].
  replace (Z.to_nat (position st' - Z.of_nat (length values) + 1))
    with (length (stack_view st)) by lia.
  assert (Htake : take (length (stack_view st)) (contents st')
                  = take (length (stack_view st)) (stack_view st')).
  { unfold stack_view at 3. rewrite take_take. f_equal. lia. }
  rewrite Htake, Hview, take_app_length. reflexivity.
Qed.

Lemma stack_lifo_sequence_witness :
  exists st', push_all stack_init [5; 6; 7] = Ret st' /\
    stack_view st' = stack_view stack_init ++ [5; 6; 7] /\
    exists st'', pop_n (length [5; 6; 7]) st' = Ret (reverse [5; 6; 7], st'') /\
      position st'' = position stack_init /\
      stack_view st'' = stack_view stack_init.
Proof.
  apply (stack_lifo_sequence stack_init [5; 6; 7] (proj1 wf_stack_init)).
  - unfold stack_init, STACK_SIZE; cbn [position]. lia.
  - unfold stack_init, STACK_SIZE; cbn [position length]. lia.
Defined.

(** ** Fetching at the end of memory *)

Section Fetch.
Variable s : vm.
Hypothesis mem_wf : wf_memory (memory s).
Hypothesis pc_nonneg : 0 <= pc s.


End Fetch.


(** ** Loading is lossless *)





(** ** Comparisons and input *)

Section Comparisons.
Variable s : vm.
Hypothesis regs_wf : wf_registers (registers s).
Variable a : Z.
Hypothesis a_register : is_register a.

(** X20. [eq] and [gt] store 1 or 0, and of the three comparisons
    [eq b c], [gt b c] and [gt c b] exactly one stores 1: [eq] when the
    resolved operands are equal, [gt] when the first is the greater. *)
Theorem eq_gt_trichotomy (b c x y : Z) :
  val_get (registers s) b = Ret x ->
  val_get (registers s) c = Ret y ->
  operation_exec s 4 a b c = Ret (stored s a (bool_int (x =? y)) 4) /\
  operation_exec s 5 a b c = Ret (stored s a (bool_int (x >? y)) 4) /\
  operation_exec s 5 a c b = Ret (stored s a (bool_int (y >? x)) 4) /\
  bool_int (x =? y) + bool_int (x >? y) + bool_int (y >? x) = 1 /\
  (bool_int (x =? y) = 1 <-> x = y) /\
  (bool_int (x >? y) = 1 <-> y < x).
Proof using regs_wf a_register.
  intros Hb Hc.
  cbv beta iota zeta delta [operation_exec]. rewrite Hb, Hc. cbn [bind].
  rewrite !store_register by assumption.
  repeat (split; [reflexivity |]).
  destruct (Z.eqb_spec x y), (Z.gtb_spec x y), (Z.gtb_spec y x);
    cbn [bool_int]; repeat split; intros; try lia; try discriminate.
Qed.

(** X21. [in] takes exactly one byte from the input and stores its code,
    a value in 0..255, in the destination register; when the input is used
    up it stores 65535, the end-of-file value of [getchar] converted to
    [unsigned short], and goes on like after any character. *)
Theorem in_reads_one_byte (b c : Z) :
  (forall byte rest, stdin s = byte :: rest ->
     operation_exec s 20 a b c
       = Ret (stored (with_stdin rest s) a (byte_val byte) 2) /\
     0 <= byte_val byte <= 255) /\
  (stdin s = [] ->
     operation_exec s 20 a b c = Ret (stored (with_stdin [] s) a 65535 2)).
Proof using regs_wf a_register.
  split.
  - intros byte rest Hin. pose proof (word16_byte byte) as Hbyte.
    split; [| exact Hbyte].
    cbv beta iota zeta delta [operation_exec]. rewrite Hin. cbn [getchar fst snd].
    unfold u16. rewrite Z.mod_small by lia.
    apply store_register; assumption.
  - intros Hin. cbv beta iota zeta delta [operation_exec]. rewrite Hin.
    cbn [getchar fst snd]. change (u16 EOF) with 65535.
    apply store_register; assumption.
Qed.
End Comparisons.

Lemma eq_gt_trichotomy_witness :
  operation_exec sample_vm 4 32768 32769 12 = Ret (stored sample_vm 32768 (bool_int (11 =? 12)) 4) /\
  operation_exec sample_vm 5 32768 32769 12 = Ret (stored sample_vm 32768 (bool_int (11 >? 12)) 4) /\
  operation_exec sample_vm 5 32768 12 32769 = Ret (stored sample_vm 32768 (bool_int (12 >? 11)) 4) /\
  bool_int (11 =? 12) + bool_int (11 >? 12) + bool_int (12 >? 11) = 1 /\
  (bool_int (11 =? 12) = 1 <-> 11 = 12) /\
  (bool_int (11 >? 12) = 1 <-> 12 < 11).
Proof.
  apply (eq_gt_trichotomy sample_vm wf_sample_vm 32768 is_register_32768
           32769 12 11 12); reflexivity.
Defined.

Lemma in_reads_one_byte_witness :
  operation_exec sample_vm 20 32768 0 0
    = Ret (stored (with_stdin [] sample_vm) 32768 (byte_val Byte.x41) 2) /\
  0 <= byte_val Byte.x41 <= 255.
Proof.
  apply (proj1 (in_reads_one_byte sample_vm wf_sample_vm 32768 is_register_32768 0 0)
           Byte.x41 []).
  reflexivity.
Defined.
